(** * Duty scheduler: a shallow embedding of [scheduler.py]

    The development follows [InternScheduler] of [src/scheduler.py]:
    the calendar and unit model, the pre-solve check [verify_units], the
    weekend pre-distribution, the construction of the 0/1 programme handed
    to PuLP, the extraction of the schedule and of the per-intern
    metrics, and the data [create_calendar] lays out; and the form handler
    of [src/app.py] that builds the scheduler and calls it.

    Conventions of the embedding.
    - A [datetime] at midnight (what [app.py] parses from [%Y-%m-%d]) is
      its proleptic Gregorian ordinal, [date.toordinal()], an integer;
      [(a - b).days] is then the difference of two ordinals.
    - Python integers are [Z]; [//] and [%] are [Z.div] and [Z.modulo]
      (both round towards minus infinity, as Python does), and raise
      [ZeroDivisionError] on a zero divisor.
    - A list object lives in a heap, so that the list the caller passes to
      the constructor and [self.interns] are one object.
    - [random.shuffle] is the Fisher-Yates loop of the standard library,
      reading its draws from a tape that stands for the process-global
      generator.
    - The solver is a function from the programme to a status and a value
      per variable; nothing is assumed about it unless a theorem says so.
      A value is an integer: the float [1.0] the solver reports for a
      binary variable is the integer 1.  The names [solve] gives the
      constraints play no part and are left out.
    - [total_spacing / (len(shifts) + 1)] is the exact rational.
    - A [while] loop takes fuel; the theorems show that one unit is
      enough for the only loop there is. *)

From Stdlib Require Import ZArith QArith Lia.
From stdpp Require Import base option list gmap strings pretty.

Local Open Scope Z_scope.

(** ** Outcomes of Python code *)

Inductive exn : Type :=
| ValueError_units (total_intern_units total_required_units : Z)
| ValueError_min_interns
    (total_intern_units min_interns total_required_units_interns : Z)
| ZeroDivisionError
| KeyError
| IndexError.

(** [OutOfFuel] is the only outcome that does not exist in Python: it marks
    a [while] loop that was cut before its condition became false. *)
Inductive outcome (A : Type) : Type :=
| Returned (a : A)
| Raised (e : exn)
| OutOfFuel.
Arguments Returned {A} a.
Arguments Raised {A} e.
Arguments OutOfFuel {A}.

Definition bind {A B : Type} (m : outcome A) (k : A → outcome B) : outcome B :=
  match m with
  | Returned a => k a
  | Raised e => Raised e
  | OutOfFuel => OutOfFuel
  end.

Notation "'let*' x ':=' m 'in' k" := (bind m (λ x, k))
  (at level 10, x pattern, m at level 200, k at level 200,
   format "'[v' 'let*'  x  :=  m  'in'  '/' k ']'").

Definition floordiv (a b : Z) : outcome Z :=
  if b =? 0 then Raised ZeroDivisionError else Returned (a / b).

Definition pymod (a b : Z) : outcome Z :=
  if b =? 0 then Raised ZeroDivisionError else Returned (a mod b).

Definition getitem {K V : Type} `{Countable K} (m : gmap K V) (k : K) : outcome V :=
  match m !! k with
  | Some v => Returned v
  | None => Raised KeyError
  end.

Definition index {A : Type} (l : list A) (i : nat) : outcome A :=
  match l !! i with
  | Some v => Returned v
  | None => Raised IndexError
  end.

(** ** Calendar *)

Module Calendar.

(** [date.toordinal()] of the standard library: day 1 is 0001-01-01. *)
Definition is_leap (y : Z) : bool :=
  (y mod 4 =? 0) && (negb (y mod 100 =? 0) || (y mod 400 =? 0)).

Definition days_before_year (y : Z) : Z :=
  let y1 := y - 1 in y1 * 365 + y1 / 4 - y1 / 100 + y1 / 400.

Definition days_in_month (y m : Z) : Z :=
  if m =? 2 then (if is_leap y then 29 else 28)
  else if (m =? 4) || (m =? 6) || (m =? 9) || (m =? 11) then 30
  else 31.

Definition days_before_month (y m : Z) : Z :=
  foldr (λ k acc, days_in_month y (Z.of_nat k) + acc) 0
        (seq 1 (Z.to_nat (m - 1))).

Definition toordinal (y m d : Z) : Z :=
  days_before_year y + days_before_month y m + d.

(** [datetime.weekday()]: Monday is 0 and Sunday is 6. *)
Definition weekday (d : Z) : Z := (d + 6) mod 7.

Inductive day_name : Type :=
| Monday | Tuesday | Wednesday | Thursday | Friday | Saturday | Sunday.

Definition day_of_week (d : Z) : day_name :=
  match weekday d with
  | 0 => Monday
  | 1 => Tuesday
  | 2 => Wednesday
  | 3 => Thursday
  | 4 => Friday
  | 5 => Saturday
  | _ => Sunday
  end.

(** [pd.date_range(start=start_date, end=end_date)]: every day from the
    first to the last, none when the end precedes the start. *)
Definition generate_dates (start_date end_date : Z) : list Z :=
  (λ k : nat, start_date + Z.of_nat k)
    <$> seq 0 (Z.to_nat (end_date - start_date + 1)).

End Calendar.
Export Calendar.

(** ** The random source *)

Module Random.

(** [_randbelow(n)]: the next draw of the generator, below [n]. *)
Definition randbelow (n : nat) (tape : list nat) : nat * list nat :=
  match tape with
  | [] => (0%nat, [])
  | r :: tape' => ((r mod n)%nat, tape')
  end.

(** [x[i], x[j] = x[j], x[i]]; both indices are in range in [shuffle]. *)
Definition swap {A : Type} (i j : nat) (x : list A) : list A :=
  match x !! i, x !! j with
  | Some xi, Some xj => <[j := xi]> (<[i := xj]> x)
  | _, _ => x
  end.

(** [for i in reversed(range(1, len(x))): j = randbelow(i + 1); swap],
    entered with [i = len(x) - 1]. *)
Fixpoint shuffle_from {A : Type} (i : nat) (x : list A) (tape : list nat)
  : list A * list nat :=
  match i with
  | O => (x, tape)
  | S i' =>
      let '(j, tape') := randbelow (S i) tape in
      shuffle_from i' (swap i j x) tape'
  end.

Definition shuffle {A : Type} (x : list A) (tape : list nat)
  : list A * list nat :=
  shuffle_from (length x - 1) x tape.

End Random.

(** ** The 0/1 programme handed to PuLP *)

Module LP.

(** A decision variable [intern_vars[(i, d)]]. *)
Abbreviation var := (string * Z)%type.

Inductive sense : Type := LpConstraintLE | LpConstraintEQ | LpConstraintGE.

(** [lpSum(terms) sense rhs]; a term is a coefficient and a variable. *)
Record LpConstraint : Type := mkConstraint {
  terms : list (Z * var);
  csense : sense;
  rhs : Z
}.

(** Every variable of [variables] has category [Binary]. *)
Record LpProblem : Type := mkProblem {
  variables : list var;
  constraints : list LpConstraint
}.

Inductive LpStatus : Type :=
| LpStatusOptimal | LpStatusNotSolved | LpStatusInfeasible
| LpStatusUnbounded | LpStatusUndefined.

(** What [prob.solve()] leaves behind: [prob.status] and the [varValue]
    of every variable ([None] where the solver set none). *)
Record LpSolution : Type := mkSolution {
  status : LpStatus;
  varValue : var → option Z
}.

Definition value (a : var → option Z) (v : var) : Z := default 0 (a v).

Definition eval (a : var → option Z) (ts : list (Z * var)) : Z :=
  foldr (λ t acc, t.1 * value a t.2 + acc) 0 ts.

Definition holds (a : var → option Z) (c : LpConstraint) : Prop :=
  match csense c with
  | LpConstraintLE => eval a (terms c) ≤ rhs c
  | LpConstraintEQ => eval a (terms c) = rhs c
  | LpConstraintGE => rhs c ≤ eval a (terms c)
  end.

Definition binary (a : var → option Z) (v : var) : Prop :=
  a v = Some 0 ∨ a v = Some 1.

(** [a] is a solution of the programme. *)
Definition satisfies (a : var → option Z) (p : LpProblem) : Prop :=
  Forall (binary a) (variables p) ∧ Forall (holds a) (constraints p).

Definition infeasible (p : LpProblem) : Prop := ∀ a, ¬ satisfies a p.

End LP.
Export LP.

(** ** The scheduler object *)

Module Scheduler.

Abbreviation loc := positive.

(** The part of the interpreter's state [solve] touches: the list
    objects, and the state of the process-global random generator. *)
Record world : Type := mkWorld {
  heap : gmap loc (list string);
  rng : list nat
}.

Definition read_list (w : world) (l : loc) : list string :=
  default [] (heap w !! l).

Record Metrics : Type := mkMetrics {
  total_units_used : Z;
  average_spacing : option Q;
  num_shifts : nat;
  weekdays : Z;
  saturdays : Z;
  sundays : Z
}.

Record InternScheduler : Type := mkScheduler {
  start_date : Z;
  end_date : Z;
  interns : loc;
  units_per_intern : gmap string Z;
  min_interns_per_duty : Z;
  minimum_spacing : Z;
  dates : list Z;
  schedule : option (gmap Z (list string));
  intern_metrics : option (gmap string Metrics)
}.

(** [__init__]: [self.interns] is the caller's list object itself. *)
Definition __init__ (start_date end_date : Z) (interns : loc)
    (units_per_intern : gmap string Z)
    (min_interns_per_duty minimum_spacing : Z) : InternScheduler :=
  {| start_date := start_date;
     end_date := end_date;
     interns := interns;
     units_per_intern := units_per_intern;
     min_interns_per_duty := min_interns_per_duty;
     minimum_spacing := minimum_spacing;
     dates := generate_dates start_date end_date;
     schedule := None;
     intern_metrics := None |}.

Definition get_units_for_day (date : Z) : Z :=
  if weekday date =? 5 then 2
  else if weekday date =? 6 then 3
  else 1.

Definition calculate_total_required_units (self : InternScheduler) : Z :=
  fold_left
    (λ total_units d,
       if weekday d =? 5 then total_units + 2
       else if weekday d =? 6 then total_units + 3
       else total_units + 1)
    (dates self) 0.

(** [sum(d.values())] *)
Definition sum_values (d : gmap string Z) : Z :=
  map_fold (λ _ v acc, acc + v) 0 d.

Definition verify_units (self : InternScheduler) (total_required_units : Z)
  : outcome unit :=
  let total_required_units_interns :=
    total_required_units * min_interns_per_duty self in
  let total_intern_units := sum_values (units_per_intern self) in
  if total_intern_units <? total_required_units then
    Raised (ValueError_units total_intern_units total_required_units)
  else if total_intern_units <? total_required_units_interns then
    Raised (ValueError_min_interns total_intern_units
              (min_interns_per_duty self) total_required_units_interns)
  else Returned tt.

(** *** Weekend pre-distribution (lines 76-103 of [solve]) *)

(** [{intern: [expected_saturdays, expected_sundays] for intern in ...}] *)
Definition init_distribution (interns : list string) (es eu : Z)
  : gmap string (Z * Z) :=
  foldl (λ m intern, <[intern := (es, eu)]> m) ∅ interns.

(** One run of [for intern in shuffled_interns], from its current position;
    the triple is [weekend_distribution], [remainder_saturdays] and
    [remainder_sundays]. *)
Fixpoint for_pass (shuffled_interns : list string)
    (wd : gmap string (Z * Z)) (rs ru : Z)
  : outcome (gmap string (Z * Z) * Z * Z) :=
  match shuffled_interns with
  | [] => Returned (wd, rs, ru)
  | intern :: rest =>
      if (rs =? 0) && (ru =? 0) then Returned (wd, rs, ru)
      else if rs >? 0 then
        let* t := getitem wd intern in
        for_pass rest (<[intern := (t.1 + 1, t.2)]> wd) (rs - 1) ru
      else if ru >? 0 then
        let* t := getitem wd intern in
        for_pass rest (<[intern := (t.1, t.2 + 1)]> wd) rs (ru - 1)
      else for_pass rest wd rs ru
  end.

(** [while remainder_saturdays > 0 and remainder_sundays > 0: for ...] *)
Fixpoint while_remainders (fuel : nat) (shuffled_interns : list string)
    (wd : gmap string (Z * Z)) (rs ru : Z)
  : outcome (gmap string (Z * Z) * Z * Z) :=
  if (rs >? 0) && (ru >? 0) then
    match fuel with
    | O => OutOfFuel
    | S fuel' =>
        let* st := for_pass shuffled_interns wd rs ru in
        while_remainders fuel' shuffled_interns st.1.1 st.1.2 st.2
    end
  else Returned (wd, rs, ru).

Definition count_weekday (n : Z) (dates : list Z) : Z :=
  Z.of_nat (length (filter (λ d, weekday d = n) dates)).

Definition count_weekdays (dates : list Z) : Z :=
  Z.of_nat (length (filter (λ d, weekday d < 5) dates)).

(** Lines 76-103: the counts, the quotients and remainders, and the loop.
    The result is [weekend_distribution] with what is left of the two
    remainders when the loop ends. *)
Definition distribute_weekends (fuel : nat) (dates : list Z)
    (min_interns_per_duty : Z) (interns shuffled_interns : list string)
  : outcome (gmap string (Z * Z) * Z * Z) :=
  let num_weekdays := count_weekdays dates in
  let num_saturdays := count_weekday 5 dates in
  let num_sundays := count_weekday 6 dates in
  let n := Z.of_nat (length interns) in
  let* expected_weekdays := floordiv (num_weekdays * min_interns_per_duty) n in
  let* expected_saturdays := floordiv (num_saturdays * min_interns_per_duty) n in
  let* expected_sundays := floordiv (num_sundays * min_interns_per_duty) n in
  let* remainder_weekdays := pymod (num_weekdays * min_interns_per_duty) n in
  let* remainder_saturdays := pymod (num_saturdays * min_interns_per_duty) n in
  let* remainder_sundays := pymod (num_sundays * min_interns_per_duty) n in
  while_remainders fuel shuffled_interns
    (init_distribution interns expected_saturdays expected_sundays)
    remainder_saturdays remainder_sundays.

Definition weekend_targets (fuel : nat) (dates : list Z)
    (min_interns_per_duty : Z) (interns shuffled_interns : list string)
  : outcome (gmap string (Z * Z)) :=
  let* st := distribute_weekends fuel dates min_interns_per_duty
             interns shuffled_interns in
  Returned st.1.1.

(** Sum of the Saturday (Sunday) targets over the persons of the table. *)
Definition total_saturday_targets (wd : gmap string (Z * Z)) : Z :=
  map_fold (λ _ t acc, acc + t.1) 0 wd.

Definition total_sunday_targets (wd : gmap string (Z * Z)) : Z :=
  map_fold (λ _ t acc, acc + t.2) 0 wd.

(** *** The constraints (lines 63-72 and 105-119 of [solve]) *)

Fixpoint mapM {A B : Type} (f : A → outcome B) (l : list A)
  : outcome (list B) :=
  match l with
  | [] => Returned []
  | a :: l' =>
      let* b := f a in
      let* bs := mapM f l' in
      Returned (b :: bs)
  end.

(** [((i, d) for i in self.interns for d in self.dates)] *)
Definition intern_vars (interns : list string) (dates : list Z) : list var :=
  i ← interns; d ← dates; [(i, d)].

(** [lpSum([intern_vars[(i, d)] for i in self.interns]) >= min] *)
Definition coverage_constraint (interns : list string) (m : Z) (d : Z)
  : LpConstraint :=
  mkConstraint ((λ i, (1, (i, d))) <$> interns) LpConstraintGE m.

(** [lpSum([intern_vars[(i, d)] * units(d) ...]) == units_per_intern[i]] *)
Definition quota_constraint (units : gmap string Z) (dates : list Z)
    (i : string) : outcome LpConstraint :=
  let total_units := (λ d, (get_units_for_day d, (i, d))) <$> dates in
  let* quota := getitem units i in
  Returned (mkConstraint total_units LpConstraintEQ quota).

(** The Saturday and the Sunday constraint of intern [i]. *)
Definition weekend_constraint (wd : gmap string (Z * Z)) (dates : list Z)
    (i : string) : outcome (list LpConstraint) :=
  let on n := (λ d, (1, (i, d))) <$> filter (λ d, weekday d = n) dates in
  let* t := getitem wd i in
  let* t' := getitem wd i in
  Returned [mkConstraint (on 5) LpConstraintEQ t.1;
            mkConstraint (on 6) LpConstraintEQ t'.2].

(** [for j in range(len(dates)): for k in range(1, minimum_spacing + 1):
    if j + k < len(dates): vars[(i, d1)] + vars[(i, d2)] <= 1].  Neither
    [dates[j]] nor [dates[j + k]] can be out of range here. *)
Definition spacing_constraints (dates : list Z) (minimum_spacing : Z)
    (i : string) : list LpConstraint :=
  j ← seq 0 (length dates);
  k ← seq 1 (Z.to_nat minimum_spacing);
  if decide (j + k < length dates)%nat then
    match dates !! j, dates !! (j + k)%nat with
    | Some d1, Some d2 =>
        [mkConstraint [(1, (i, d1)); (1, (i, d2))] LpConstraintLE 1]
    | _, _ => []
    end
  else [].

(** Lines 59-119: the programme as [prob.solve()] receives it, with the
    weekend targets that went into it.  [interns] is [self.interns] as it
    stands after line 57. *)
Definition build_problem (fuel : nat) (self : InternScheduler)
    (interns shuffled_interns : list string)
  : outcome (LpProblem * gmap string (Z * Z)) :=
  let ds := dates self in
  let cover := coverage_constraint interns (min_interns_per_duty self) <$> ds in
  let* quota := mapM (quota_constraint (units_per_intern self) ds) interns in
  let* wd := weekend_targets fuel ds (min_interns_per_duty self)
               interns shuffled_interns in
  let* weekend := mapM (weekend_constraint wd ds) interns in
  let spacing := i ← interns; spacing_constraints ds (minimum_spacing self) i in
  Returned (mkProblem (intern_vars interns ds)
              (cover ++ quota ++ concat weekend ++ spacing), wd).

(** *** Extraction of the schedule and the metrics (lines 125-165) *)

(** The locals of one turn of [for i in self.interns], with
    [self.schedule]. *)
Record scan : Type := mkScan {
  sc_shifts : list Z;
  sc_total_units_used : Z;
  sc_weekdays : Z;
  sc_saturdays : Z;
  sc_sundays : Z;
  sc_schedule : gmap Z (list string)
}.

(** [for d in self.dates: if pulp.value(intern_vars[(i, d)]) == 1: ...] *)
Fixpoint scan_dates (val : var → option Z) (i : string) (ds : list Z)
    (st : scan) : outcome scan :=
  match ds with
  | [] => Returned st
  | d :: ds' =>
      if bool_decide (val (i, d) = Some 1) then
        let shifts := sc_shifts st ++ [d] in
        let total_units_used := sc_total_units_used st + get_units_for_day d in
        let* on_duty := getitem (sc_schedule st) d in
        let sched := <[d := on_duty ++ [i]]> (sc_schedule st) in
        let st' :=
          if weekday d <? 5 then
            mkScan shifts total_units_used (sc_weekdays st + 1)
                   (sc_saturdays st) (sc_sundays st) sched
          else if weekday d =? 5 then
            mkScan shifts total_units_used (sc_weekdays st)
                   (sc_saturdays st + 1) (sc_sundays st) sched
          else if weekday d =? 6 then
            mkScan shifts total_units_used (sc_weekdays st)
                   (sc_saturdays st) (sc_sundays st + 1) sched
          else
            mkScan shifts total_units_used (sc_weekdays st)
                   (sc_saturdays st) (sc_sundays st) sched in
        scan_dates val i ds' st'
      else scan_dates val i ds' st
  end.

(** [l[-1]] *)
Definition index_last {A : Type} (l : list A) : outcome A :=
  match last l with
  | Some v => Returned v
  | None => Raised IndexError
  end.

(** [for j in range(1, len(shifts)): total += (shifts[j] - shifts[j-1]).days] *)
Fixpoint add_gaps (shifts : list Z) (js : list nat) (total_spacing : Z)
  : outcome Z :=
  match js with
  | [] => Returned total_spacing
  | j :: js' =>
      let* a := index shifts j in
      let* b := index shifts (j - 1) in
      add_gaps shifts js' (total_spacing + (a - b))
  end.

(** Lines 147-155. *)
Definition compute_average_spacing (dates shifts : list Z)
  : outcome (option Q) :=
  match shifts with
  | [] => Returned None
  | _ :: _ =>
      let* s0 := index shifts 0 in
      let* d0 := index dates 0 in
      let* dl := index_last dates in
      let* sl := index_last shifts in
      let total_spacing := (s0 - d0) + (dl - sl) in
      let* total_spacing :=
        add_gaps shifts (seq 1 (length shifts - 1)) total_spacing in
      Returned (Some (Qmake total_spacing (Pos.of_succ_nat (length shifts))))
  end.

(** One turn of [for i in self.interns] (lines 128-165). *)
Definition extract_intern (val : var → option Z) (dates : list Z)
    (st : gmap Z (list string) * gmap string Metrics) (i : string)
  : outcome (gmap Z (list string) * gmap string Metrics) :=
  let* sc := scan_dates val i dates (mkScan [] 0 0 0 0 st.1) in
  let* average := compute_average_spacing dates (sc_shifts sc) in
  let metrics :=
    mkMetrics (sc_total_units_used sc) average (length (sc_shifts sc))
              (sc_weekdays sc) (sc_saturdays sc) (sc_sundays sc) in
  Returned (sc_schedule sc, <[i := metrics]> st.2).

Fixpoint extract_interns (val : var → option Z) (dates : list Z)
    (interns : list string)
    (st : gmap Z (list string) * gmap string Metrics)
  : outcome (gmap Z (list string) * gmap string Metrics) :=
  match interns with
  | [] => Returned st
  | i :: rest =>
      let* st' := extract_intern val dates st i in
      extract_interns val dates rest st'
  end.

(** [{d: [] for d in self.dates}] *)
Definition empty_schedule (dates : list Z) : gmap Z (list string) :=
  foldl (λ m d, <[d := []]> m) ∅ dates.

Definition extract_solution (val : var → option Z) (dates : list Z)
    (interns : list string)
  : outcome (gmap Z (list string) * gmap string Metrics) :=
  extract_interns val dates interns (empty_schedule dates, ∅).

(** *** [solve] *)

Section Solve.

Variable solver : LpProblem → LpSolution.

(** Lines 59-165, on [self.interns] and [shuffled_interns] as lines 53-57
    left them.  [prob.status] is not read. *)
Definition solve_model (fuel : nat) (self : InternScheduler)
    (interns shuffled_interns : list string) : outcome InternScheduler :=
  let* built := build_problem fuel self interns shuffled_interns in
  let solution := solver built.1 in
  let* extracted :=
    extract_solution (varValue solution) (dates self) interns in
  Returned
    {| start_date := start_date self;
       end_date := end_date self;
       interns := Scheduler.interns self;
       units_per_intern := units_per_intern self;
       min_interns_per_duty := min_interns_per_duty self;
       minimum_spacing := minimum_spacing self;
       dates := dates self;
       schedule := Some extracted.1;
       intern_metrics := Some extracted.2 |}.

(** Lines 52-57: the copy is shuffled, then the caller's list itself when
    [randomize] is set. *)
Definition shuffle_interns (self : InternScheduler) (randomize : bool)
    (w : world) : list string * world :=
  let copy := read_list w (interns self) in
  let '(shuffled_interns, tape) := Random.shuffle copy (rng w) in
  if randomize then
    let '(l, tape') := Random.shuffle (read_list w (interns self)) tape in
    (shuffled_interns, mkWorld (<[interns self := l]> (heap w)) tape')
  else (shuffled_interns, mkWorld (heap w) tape).

(** What [solve] does once [verify_units] has returned. *)
Definition solve_checked (fuel : nat) (self : InternScheduler)
    (randomize : bool) (w : world) : outcome InternScheduler * world :=
  let '(shuffled_interns, w') := shuffle_interns self randomize w in
  (solve_model fuel self (read_list w' (interns self)) shuffled_interns, w').

Definition solve (fuel : nat) (self : InternScheduler) (randomize : bool)
    (w : world) : outcome InternScheduler * world :=
  let total_required_units := calculate_total_required_units self in
  match verify_units self total_required_units with
  | Returned _ => solve_checked fuel self randomize w
  | Raised e => (Raised e, w)
  | OutOfFuel => (OutOfFuel, w)
  end.

End Solve.

End Scheduler.
Export Scheduler.

(** ** Specification-side definitions *)

Module Spec.

(** The unit weight as the specification words it: 1 from Monday to
    Friday, 2 on Saturday, 3 on Sunday. *)
Definition unit_weight (n : day_name) : Z :=
  match n with
  | Saturday => 2
  | Sunday => 3
  | _ => 1
  end.

(** Python's numbering of the days of the week. *)
Definition day_number (n : day_name) : Z :=
  match n with
  | Monday => 0 | Tuesday => 1 | Wednesday => 2 | Thursday => 3
  | Friday => 4 | Saturday => 5 | Sunday => 6
  end.

Definition sum_Z (l : list Z) : Z := foldr Z.add 0 l.

(** The gaps between every consecutive pair of shifts. *)
Fixpoint consecutive_gaps (shifts : list Z) : Z :=
  match shifts with
  | a :: (b :: _) as rest => (b - a) + consecutive_gaps rest
  | _ => 0
  end.

(** Gap from the horizon start to the first shift, plus the gaps between
    consecutive shifts, plus the gap from the last shift to the horizon
    end. *)
Definition total_gap (horizon_start horizon_end first_shift last_shift : Z)
    (shifts : list Z) : Z :=
  (first_shift - horizon_start) + consecutive_gaps shifts
  + (horizon_end - last_shift).

(** Person [i] is on duty on date [d] in schedule [sched]. *)
Definition on_duty (sched : gmap Z (list string)) (i : string) (d : Z) : Prop :=
  i ∈ default [] (sched !! d).

#[global] Instance on_duty_dec sched i d : Decision (on_duty sched i d).
Proof. unfold on_duty. apply _. Defined.

(** The dates of the horizon assigned to [i], in horizon order. *)
Definition assigned_dates (sched : gmap Z (list string)) (dates : list Z)
    (i : string) : list Z :=
  filter (on_duty sched i) dates.

(** The four invariants of an accepted assignment. *)
Definition coverage_ok (sched : gmap Z (list string)) (dates : list Z)
    (m : Z) : Prop :=
  ∀ d, d ∈ dates →
    ∃ l, sched !! d = Some l ∧ NoDup l ∧ m ≤ Z.of_nat (length l).

Definition quota_ok (sched : gmap Z (list string)) (dates : list Z)
    (units : gmap string Z) (i : string) : Prop :=
  units !! i = Some (sum_Z (get_units_for_day <$> assigned_dates sched dates i)).

Definition weekend_ok (sched : gmap Z (list string)) (dates : list Z)
    (wd : gmap string (Z * Z)) (i : string) : Prop :=
  wd !! i =
    Some (count_weekday 5 (assigned_dates sched dates i),
          count_weekday 6 (assigned_dates sched dates i)).

Definition spacing_ok (sched : gmap Z (list string)) (dates : list Z)
    (minimum_spacing : Z) (i : string) : Prop :=
  ∀ (j k : nat) d1 d2,
    (1 ≤ k)%nat → Z.of_nat k ≤ minimum_spacing →
    dates !! j = Some d1 → dates !! (j + k)%nat = Some d2 →
    ¬ (on_duty sched i d1 ∧ on_duty sched i d2).

(** The dates on which the solver's values put [i] on duty, and the
    persons they put on duty on [d]. *)
Definition shifts_of (val : var → option Z) (dates : list Z) (i : string)
  : list Z :=
  filter (λ d, val (i, d) = Some 1) dates.

Definition staff_of (val : var → option Z) (interns : list string) (d : Z)
  : list string :=
  filter (λ i, val (i, d) = Some 1) interns.

(** [m] is the metrics record of [i] for the values [val]. *)
Definition metrics_of (val : var → option Z) (dates : list Z) (i : string)
    (m : Metrics) : Prop :=
  let shifts := shifts_of val dates i in
  total_units_used m = sum_Z (get_units_for_day <$> shifts)
  ∧ num_shifts m = length shifts
  ∧ weekdays m = count_weekdays shifts
  ∧ saturdays m = count_weekday 5 shifts
  ∧ sundays m = count_weekday 6 shifts
  ∧ compute_average_spacing dates shifts = Returned (average_spacing m).

(** [total / (num_shifts + 1)] *)
Definition average_of (total : Z) (num_shifts : nat) : Q :=
  (inject_Z total / inject_Z (Z.of_nat num_shifts + 1))%Q.

(** The programme [solve] hands to the solver, with the weekend targets
    that went into it: lines 52-119 on the state [w]. *)
Definition programme_of (fuel : nat) (self : InternScheduler)
    (randomize : bool) (w : world)
  : outcome (LpProblem * gmap string (Z * Z)) :=
  build_problem fuel self
    (read_list (shuffle_interns self randomize w).2 (interns self))
    (shuffle_interns self randomize w).1.

(** [self.interns] as [solve] leaves it. *)
Definition interns_after (self : InternScheduler) (randomize : bool)
    (w : world) : list string :=
  read_list (shuffle_interns self randomize w).2 (interns self).

(** [self.dates] is what the constructor computed. *)
Definition constructed (self : InternScheduler) : Prop :=
  dates self = generate_dates (start_date self) (end_date self).

(** Every target is the quotient or the quotient plus one. *)
Definition near_expected (es eu : Z) (wd : gmap string (Z * Z)) : Prop :=
  ∀ i t, wd !! i = Some t →
    (es ≤ t.1 ≤ es + 1) ∧ (eu ≤ t.2 ≤ eu + 1).

Definition invariants (sched : gmap Z (list string)) (dates : list Z)
    (interns : list string) (units : gmap string Z)
    (wd : gmap string (Z * Z)) (m minimum_spacing : Z) : Prop :=
  coverage_ok sched dates m
  ∧ ∀ i, i ∈ interns →
      quota_ok sched dates units i
      ∧ weekend_ok sched dates wd i
      ∧ spacing_ok sched dates minimum_spacing i.

End Spec.
Export Spec.

(** ** Concrete inputs used by the examples *)

Module Examples.

Local Open Scope string_scope.

(** A solver that finds nothing and sets no variable. *)
Definition null_solver (p : LpProblem) : LpSolution :=
  mkSolution LpStatusInfeasible (λ _, None).

(** Values that put A on duty on the first day and B on the second. *)
Definition alternate (first second : Z) (v : var) : option Z :=
  if bool_decide (v = ("A", first)) then Some 1
  else if bool_decide (v = ("B", second)) then Some 1
  else Some 0.

Definition alternating_solver (first second : Z) (p : LpProblem)
  : LpSolution :=
  mkSolution LpStatusOptimal (alternate first second).

(** Monday 1 January 2024 and the days of its week. *)
Definition mon : Z := toordinal 2024 1 1.
Definition tue : Z := toordinal 2024 1 2.
Definition sat : Z := toordinal 2024 1 6.
Definition sun : Z := toordinal 2024 1 7.

(** The caller's list object. *)
Definition roster : loc := 1%positive.

Definition world_of (l : list string) (tape : list nat) : world :=
  mkWorld {[ roster := l ]} tape.

(** Two persons with one unit each, on a Monday and a Tuesday. *)
Definition pair_weekdays : InternScheduler :=
  __init__ mon tue roster {[ "A" := 1; "B" := 1 ]} 1 1.

(** Two persons, the Saturday and the Sunday of that week. *)
Definition pair_weekend : InternScheduler :=
  __init__ sat sun roster {[ "A" := 3; "B" := 3 ]} 1 1.

(** Two persons, that Saturday alone. *)
Definition pair_saturday : InternScheduler :=
  __init__ sat sat roster {[ "A" := 1; "B" := 1 ]} 1 1.

(** Three persons, two on duty each day, that Saturday and Sunday. *)
Definition trio_weekend : InternScheduler :=
  __init__ sat sun roster {[ "A" := 4; "B" := 3; "C" := 3 ]} 2 1.

(** One person who owes two units, one Monday. *)
Definition overbooked : InternScheduler :=
  __init__ mon mon roster {[ "A" := 2 ]} 1 1.

(** An object as a solve leaves it: A on the Monday, B on the Tuesday. *)
Definition solved_pair : InternScheduler :=
  {| start_date := mon; end_date := tue; interns := roster;
     units_per_intern := {[ "A" := 1; "B" := 1 ]};
     min_interns_per_duty := 1; minimum_spacing := 1;
     dates := generate_dates mon tue;
     schedule := Some {[ mon := ["A"]; tue := ["B"] ]};
     intern_metrics := Some ∅ |}.

(** Sixteen persons on duty on one Monday. *)
Definition crowd : list string :=
  ["a"; "b"; "c"; "d"; "e"; "f"; "g"; "h"; "i"; "j"; "k"; "l"; "m"; "n";
   "o"; "p"].

Definition solved_crowd : InternScheduler :=
  {| start_date := mon; end_date := mon; interns := roster;
     units_per_intern := ∅;
     min_interns_per_duty := 16; minimum_spacing := 1;
     dates := generate_dates mon mon;
     schedule := Some {[ mon := crowd ]};
     intern_metrics := Some ∅ |}.

(** A date format for the examples: the ordinal in decimal. *)
Definition show_date (format : string) (d : Z) : string := pretty d.

(** No person at all, one Monday. *)
Definition nobody : InternScheduler := __init__ mon mon roster ∅ 1 1.

End Examples.

(** ** The report: [create_calendar] (lines 193-368)

    The two layouts are modelled up to the data handed to pandas and
    openpyxl: the rows, the column labels and the colour of each name.
    [strftime] stands for [date.strftime(format)].  A Python [set] has no
    fixed iteration order: [set_order] gives the order in which a set is
    visited, and the theorems ask of it only that it lists the elements of
    the set, each once. *)

Module Report.

Inductive cell : Type :=
| Str (s : string)
| Int (n : Z).

(** [self.schedule.get(date.to_pydatetime(), [])] *)
Definition schedule_get (sched : gmap Z (list string)) (date : Z)
  : list string :=
  default [] (sched !! date).

(** The nested [get_units_for_day] of lines 246-252. *)
Definition get_units_for_day (date : Z) : Z :=
  if weekday date =? 5 then 2
  else if weekday date =? 6 then 3
  else 1.

(** The 15 colours of lines 342-345. *)
Definition color_choices : list string :=
  ["FF9999"; "99FF99"; "9999FF"; "FFFF99"; "FF99FF"; "99FFFF"; "FFCC99";
   "FF6666"; "66FF66"; "6666FF"; "FF66FF"; "66FFFF"; "CCCC66"; "FF9966";
   "66CCFF"]%string.

(** The labels of the weekly grid, line 226. *)
Definition week_columns : list string :=
  ["Monday"; "Tuesday"; "Wednesday"; "Thursday"; "Friday"; "Saturday";
   "Sunday"]%string.

Section Formats.

Variable strftime : string → Z → string.
Variable set_order : gset string → list string.

(** Line 213: the conditional applies to the whole concatenation. *)
Definition day_entry (date : Z) (interns_on_duty : list string) : string :=
  match interns_on_duty with
  | [] => "No duty"%string
  | _ :: _ =>
      (strftime "%Y-%m-%d" date +:+ ":" +:+ String (Ascii.ascii_of_nat 10) ""
       +:+ String.concat ", " interns_on_duty)%string
  end.

(** Lines 208-223: [for date in dates], the weekly grid.  [dates] is the
    whole range, [todo] what is left of it. *)
Fixpoint week_loop (sched : gmap Z (list string)) (dates todo : list Z)
    (calendar_data : list (list string)) (current_week : list string)
  : list (list string) :=
  match todo with
  | [] => calendar_data
  | date :: todo' =>
      let interns_on_duty := schedule_get sched date in
      let current_week := current_week ++ [day_entry date interns_on_duty] in
      if (length current_week =? 7)%nat || bool_decide (last dates = Some date)
      then week_loop sched dates todo' (calendar_data ++ [current_week]) []
      else week_loop sched dates todo' calendar_data current_week
  end.

(** Lines 261-278: [for date in dates], one row a day; the pair is
    [calendar_data] and [max_interns_per_day]. *)
Fixpoint row_loop (sched : gmap Z (list string)) (todo : list Z)
    (calendar_data : list (list cell)) (max_interns_per_day : nat)
  : list (list cell) * nat :=
  match todo with
  | [] => (calendar_data, max_interns_per_day)
  | date :: todo' =>
      let interns_on_duty := schedule_get sched date in
      let max_interns_per_day :=
        Nat.max max_interns_per_day (length interns_on_duty) in
      let full_date := strftime "%A, %B %d, %Y" date in
      let units := get_units_for_day date in
      let row := [Str full_date; Int units] ++ (Str <$> interns_on_duty) in
      row_loop sched todo' (calendar_data ++ [row]) max_interns_per_day
  end.

(** The row lines 263-275 build for one date. *)
Definition row_of (sched : gmap Z (list string)) (date : Z) : list cell :=
  [Str (strftime "%A, %B %d, %Y" date); Int (get_units_for_day date)]
  ++ (Str <$> schedule_get sched date).

(** The entries of the weekly grid, in the order of the dates. *)
Definition entries (sched : gmap Z (list string)) (dates : list Z)
  : list string :=
  (λ d, day_entry d (schedule_get sched d)) <$> dates.

(** Rows of the grid: every row holds 1 to 7 entries and every row but the
    last holds 7. *)
Definition week_rows (rows : list (list string)) : Prop :=
  ∀ (r : nat) row, rows !! r = Some row →
    (1 ≤ length row ≤ 7)%nat
    ∧ ((S r < length rows)%nat → length row = 7%nat).

(** The label of a day of the week in [week_columns]. *)
Definition day_label (n : day_name) : string :=
  match n with
  | Monday => "Monday" | Tuesday => "Tuesday" | Wednesday => "Wednesday"
  | Thursday => "Thursday" | Friday => "Friday" | Saturday => "Saturday"
  | Sunday => "Sunday"
  end%string.

(** Line 281. *)
Definition columns (max_interns_per_day : nat) : list string :=
  ["Date"; "Units"]%string
  ++ ((λ i : nat, "Intern " +:+ pretty (i + 1)%nat)%string
        <$> seq 0 max_interns_per_day).

(** The strings of [row[2:]]. *)
Definition names_of (row : list cell) : list string :=
  omap (λ c, match c with Str s => Some s | Int _ => None end) (drop 2 row).

(** Lines 351-353. *)
Definition collect_interns (calendar_data : list (list cell)) : gset string :=
  foldl (λ all_interns row, all_interns ∪ list_to_set (names_of row))
        ∅ calendar_data.

(** Lines 356-358, on the names as [enumerate] numbers them. *)
Fixpoint assign_colors (palette : list string)
    (numbered : list (nat * string)) (intern_colors : gmap string string)
  : outcome (gmap string string) :=
  match numbered with
  | [] => Returned intern_colors
  | (index_, intern) :: rest =>
      let* r := pymod (Z.of_nat index_) (Z.of_nat (length palette)) in
      let* color := index palette (Z.to_nat r) in
      assign_colors palette rest (<[intern := color]> intern_colors)
  end.

Definition enumerate {A : Type} (l : list A) : list (nat * A) :=
  zip (seq 0 (length l)) l.

(** What is written to the workbook. *)
Inductive sheet : Type :=
| Grid (columns : list string) (calendar_data : list (list string))
| Rows (columns : list string) (calendar_data : list (list cell))
       (intern_colors : gmap string string).

(** [NoSchedule] is the [ValueError] of line 195. *)
Inductive saved : Type :=
| NoSchedule
| Saved (s : outcome sheet).

(** [create_calendar(output_file, row_format)]; [tape] is the random
    generator. *)
Definition create_calendar (self : InternScheduler) (row_format : bool)
    (tape : list nat) : saved * list nat :=
  match schedule self with
  | None => (NoSchedule, tape)
  | Some sched =>
      let dates := generate_dates (start_date self) (end_date self) in
      if negb row_format then
        (Saved (Returned (Grid week_columns
                            (week_loop sched dates dates [] []))), tape)
      else
        let '(calendar_data, max_interns_per_day) :=
          row_loop sched dates [] 0 in
        let '(palette, tape') := Random.shuffle color_choices tape in
        let all_interns := collect_interns calendar_data in
        (Saved (let* intern_colors :=
                  assign_colors palette (enumerate (set_order all_interns))
                    ∅ in
                Returned (Rows (columns max_interns_per_day) calendar_data
                            intern_colors)),
         tape')
  end.

End Formats.

End Report.

(** ** The web form: [index] of [app.py]

    A character is its code point, below 256.  The form fields that
    [int] and [strptime] parse are taken as parsed; the file system and
    the HTTP response are left out. *)

Module App.

(** [str.isspace] on one character. *)
Definition is_space (c : Ascii.ascii) : bool :=
  let n := Ascii.nat_of_ascii c in
  ((9 <=? n) && (n <=? 13) || (28 <=? n) && (n <=? 32)
   || (n =? 133) || (n =? 160))%nat.

Fixpoint lstrip (s : string) : string :=
  match s with
  | EmptyString => EmptyString
  | String c s' => if is_space c then lstrip s' else s
  end.

Fixpoint rstrip (s : string) : string :=
  match s with
  | EmptyString => EmptyString
  | String c s' =>
      match rstrip s' with
      | EmptyString => if is_space c then EmptyString else String c EmptyString
      | r => String c r
      end
  end.

(** [s.strip()] *)
Definition strip (s : string) : string := rstrip (lstrip s).

(** [s.split(sep)] for a separator of one character. *)
Fixpoint split (sep : Ascii.ascii) (s : string) : list string :=
  match s with
  | EmptyString => [EmptyString]
  | String c s' =>
      if Ascii.eqb c sep then EmptyString :: split sep s'
      else match split sep s' with
           | [] => [String c EmptyString]
           | piece :: pieces => String c piece :: pieces
           end
  end.

Definition comma : Ascii.ascii := Ascii.ascii_of_nat 44.

(** Spelling out what [strip] and [split] are checked against. *)
Fixpoint all_space (s : string) : bool :=
  match s with
  | EmptyString => true
  | String c s' => is_space c && all_space s'
  end.

Definition starts_with_space (s : string) : bool :=
  match s with
  | EmptyString => false
  | String c _ => is_space c
  end.

Fixpoint ends_with_space (s : string) : bool :=
  match s with
  | EmptyString => false
  | String c EmptyString => is_space c
  | String _ s' => ends_with_space s'
  end.

Fixpoint count_char (c : Ascii.ascii) (s : string) : nat :=
  match s with
  | EmptyString => 0
  | String c' s' => (if Ascii.eqb c' c then 1 else 0) + count_char c s'
  end.

(** The fields of the form, lines 16-25. *)
Record form : Type := mkForm {
  f_start_date : Z;
  f_end_date : Z;
  f_intern_list : string;
  f_min_interns_per_duty : Z;
  f_units_per_intern : Z;
  f_minimum_spacing : Z
}.

(** [{intern: units_per_intern for intern in interns}] *)
Definition units_dict (interns : list string) (units_per_intern : Z)
  : gmap string Z :=
  foldl (λ m intern, <[intern := units_per_intern]> m) ∅ interns.

(** Line 28. *)
Definition parse_interns (intern_list : string) : list string :=
  strip <$> split comma intern_list.

(** Lines 28-30: the list of names is a new list object. *)
Definition make_scheduler (f : form) (w : world) : InternScheduler * world :=
  let interns := parse_interns (f_intern_list f) in
  let units_dict := units_dict interns (f_units_per_intern f) in
  let l := fresh (dom (heap w)) in
  (__init__ (f_start_date f) (f_end_date f) l units_dict
     (f_min_interns_per_duty f) (f_minimum_spacing f),
   mkWorld (<[l := interns]> (heap w)) (rng w)).

(** What the handler answers: the file, the message of a [ValueError], or
    the message for any other exception. *)
Inductive response : Type :=
| SendFile (s : Report.sheet)
| FlashValueError
| FlashUnexpected (e : exn).

Definition is_ValueError (e : exn) : bool :=
  match e with
  | ValueError_units _ _ | ValueError_min_interns _ _ _ => true
  | _ => false
  end.

Section Handler.

Variable solver : LpProblem → LpSolution.
Variable strftime : string → Z → string.
Variable set_order : gset string → list string.

(** The POST branch of [index], lines 14-61. *)
Definition index_post (fuel : nat) (f : form) (w : world)
  : option response * world :=
  let '(scheduler, w1) := make_scheduler f w in
  match solve solver fuel scheduler true w1 with
  | (Returned scheduler', w2) =>
      match Report.create_calendar strftime set_order scheduler' true (rng w2)
      with
      | (Report.NoSchedule, tape) =>
          (Some FlashValueError, mkWorld (heap w2) tape)
      | (Report.Saved (Returned s), tape) =>
          (Some (SendFile s), mkWorld (heap w2) tape)
      | (Report.Saved (Raised e), tape) =>
          (Some (if is_ValueError e then FlashValueError
                 else FlashUnexpected e), mkWorld (heap w2) tape)
      | (Report.Saved OutOfFuel, tape) => (None, mkWorld (heap w2) tape)
      end
  | (Raised e, w2) =>
      (Some (if is_ValueError e then FlashValueError else FlashUnexpected e),
       w2)
  | (OutOfFuel, w2) => (None, w2)
  end.

End Handler.

End App.

(** * Theorems *)

(** ** Calendar and units *)

Section Units.

Lemma weekday_range d : 0 ≤ weekday d < 7.
Proof. unfold weekday. apply Z.mod_pos_bound. lia. Qed.

Lemma weekday_day_number d : weekday d = day_number (day_of_week d).
Proof.
  pose proof (weekday_range d) as Hr. unfold day_of_week.
  assert (weekday d = 0 ∨ weekday d = 1 ∨ weekday d = 2 ∨ weekday d = 3
          ∨ weekday d = 4 ∨ weekday d = 5 ∨ weekday d = 6) as Hc by lia.
  destruct Hc as [E|[E|[E|[E|[E|[E|E]]]]]]; by rewrite E.
Qed.

Lemma get_units_unit_weight d :
  get_units_for_day d = unit_weight (day_of_week d).
Proof.
  unfold get_units_for_day. rewrite weekday_day_number.
  by destruct (day_of_week d).
Qed.

Lemma get_units_pos d : 1 ≤ get_units_for_day d ≤ 3.
Proof. rewrite get_units_unit_weight. destruct (day_of_week d); simpl; lia. Qed.

Lemma sum_Z_cons x l : sum_Z (x :: l) = x + sum_Z l.
Proof. reflexivity. Qed.

Lemma sum_Z_app l1 l2 : sum_Z (l1 ++ l2) = sum_Z l1 + sum_Z l2.
Proof.
  induction l1 as [|x l1 IH]; [done|].
  change ((x :: l1) ++ l2) with (x :: (l1 ++ l2)). rewrite !sum_Z_cons. lia.
Qed.

Lemma fold_units_acc (ds : list Z) (acc : Z) :
  fold_left
    (λ total_units d,
       if weekday d =? 5 then total_units + 2
       else if weekday d =? 6 then total_units + 3
       else total_units + 1) ds acc
  = acc + sum_Z (get_units_for_day <$> ds).
Proof.
  revert acc. induction ds as [|d ds IH]; intros acc.
  - simpl. unfold sum_Z. simpl. lia.
  - rewrite fmap_cons, sum_Z_cons. simpl. rewrite IH. unfold get_units_for_day.
    destruct (weekday d =? 5); [lia|]. destruct (weekday d =? 6); lia.
Qed.

Lemma total_required_units_sum self :
  calculate_total_required_units self
  = sum_Z (get_units_for_day <$> dates self).
Proof. unfold calculate_total_required_units. by rewrite fold_units_acc. Qed.

Lemma sum_units_length (ds : list Z) :
  Z.of_nat (length ds) ≤ sum_Z (get_units_for_day <$> ds).
Proof.
  induction ds as [|d ds IH]; [done|].
  rewrite fmap_cons, sum_Z_cons, length_cons.
  pose proof (get_units_pos d). lia.
Qed.

Lemma length_generate_dates s e :
  length (generate_dates s e) = Z.to_nat (e - s + 1).
Proof. unfold generate_dates. by rewrite length_fmap, length_seq. Qed.

Lemma lookup_generate_dates s e (j : nat) :
  (j < Z.to_nat (e - s + 1))%nat →
  generate_dates s e !! j = Some (s + Z.of_nat j).
Proof.
  intros Hj. unfold generate_dates. rewrite list_lookup_fmap.
  rewrite lookup_seq_lt by done. reflexivity.
Qed.

End Units.

(** C7: for every date the unit weight is 1 from Monday to Friday, 2 on
    Saturday and 3 on Sunday, where the day of the week is the one Python's
    [weekday()] numbers 0 (Monday) to 6 (Sunday); and
    [calculate_total_required_units] is the sum of these weights over the
    dates of the horizon. *)
Theorem C7_unit_weight_and_total :
  (∀ d, weekday d = day_number (day_of_week d)
        ∧ get_units_for_day d = unit_weight (day_of_week d))
  ∧ (∀ self, calculate_total_required_units self
             = sum_Z (get_units_for_day <$> dates self))
  ∧ (∀ s e i u m k, calculate_total_required_units (__init__ s e i u m k)
             = sum_Z (get_units_for_day <$> generate_dates s e)).
Proof.
  split; [|split].
  - intros d. split; [apply weekday_day_number | apply get_units_unit_weight].
  - apply total_required_units_sum.
  - intros. by rewrite total_required_units_sum.
Qed.

(** ** The pre-solve check *)

Lemma solve_check_cases solver fuel self randomize w :
  solve solver fuel self randomize w =
    if sum_values (units_per_intern self)
       <? calculate_total_required_units self
    then (Raised (ValueError_units (sum_values (units_per_intern self))
                    (calculate_total_required_units self)), w)
    else if sum_values (units_per_intern self)
            <? calculate_total_required_units self * min_interns_per_duty self
    then (Raised (ValueError_min_interns
                    (sum_values (units_per_intern self))
                    (min_interns_per_duty self)
                    (calculate_total_required_units self
                     * min_interns_per_duty self)), w)
    else solve_checked solver fuel self randomize w.
Proof.
  unfold solve, verify_units.
  destruct (_ <? _); [reflexivity|]. by destruct (_ <? _).
Qed.

(** C4: [solve] starts with the feasibility check.  With [T] the total of
    required units, [M] the minimum staffing and [U] the sum of the quotas,
    it raises when [U < T], otherwise raises when [U < T * M], and only
    otherwise goes on to shuffle and build the programme; when it raises,
    nothing of the state has been touched. *)
Theorem C4_presolve_check solver fuel self randomize w :
  let T := calculate_total_required_units self in
  let M := min_interns_per_duty self in
  let U := sum_values (units_per_intern self) in
  solve solver fuel self randomize w =
    if U <? T then (Raised (ValueError_units U T), w)
    else if U <? T * M then (Raised (ValueError_min_interns U M (T * M)), w)
    else solve_checked solver fuel self randomize w.
Proof. simpl. apply solve_check_cases. Qed.

(** C8: with an empty list of persons (and a table of quotas that lists
    quotas of persons of that list only), on a horizon of at least one day,
    [solve] raises the [ValueError] of the first test of [verify_units]:
    the sum of the quotas is 0 and the required total is positive.  The
    state is untouched: neither shuffle nor the division by the number of
    persons has been reached. *)
Theorem C8_no_person_rejected_by_check
    solver fuel start_date end_date (l : loc) (units : gmap string Z)
    (M ms : Z) randomize w :
  read_list w l = [] →
  (∀ k, is_Some (units !! k) → k ∈ read_list w l) →
  start_date ≤ end_date →
  ∃ T, 0 < T
    ∧ T = calculate_total_required_units
            (__init__ start_date end_date l units M ms)
    ∧ solve solver fuel (__init__ start_date end_date l units M ms)
            randomize w
      = (Raised (ValueError_units 0 T), w).
Proof.
  intros Hl Hk Hse.
  assert (units = ∅) as ->.
  { apply map_empty. intros k. destruct (units !! k) eqn:E; [|done].
    specialize (Hk k (mk_is_Some _ _ E)). rewrite Hl in Hk.
    by apply not_elem_of_nil in Hk. }
  eexists. split; [|split; [reflexivity|]].
  - rewrite total_required_units_sum. simpl.
    pose proof (sum_units_length (generate_dates start_date end_date)) as Hs.
    rewrite length_generate_dates in Hs. lia.
  - rewrite solve_check_cases. simpl.
    unfold sum_values at 1. rewrite map_fold_empty.
    rewrite total_required_units_sum. simpl.
    pose proof (sum_units_length (generate_dates start_date end_date)) as Hs.
    rewrite length_generate_dates in Hs.
    destruct (0 <? _) eqn:E; [done|]. apply Z.ltb_ge in E. lia.
Qed.

(** Witness of C8: nobody on the roster, Monday 1 January 2024. *)
Lemma C8_witness :
  ∃ T, 0 < T
    ∧ T = calculate_total_required_units Examples.nobody
    ∧ solve Examples.null_solver 1 Examples.nobody true
            (Examples.world_of [] [])
      = (Raised (ValueError_units 0 T), Examples.world_of [] []).
Proof.
  apply (C8_no_person_rejected_by_check Examples.null_solver 1
           Examples.mon Examples.mon Examples.roster ∅ 1 1 true
           (Examples.world_of [] [])).
  - reflexivity.
  - intros k [v Hv]. by rewrite lookup_empty in Hv.
  - lia.
Defined.

(** ** The shuffles *)

Section Shuffle.

Context {A : Type}.
Implicit Types x : list A.

Lemma insert_head_perm x (j : nat) (a b : A) :
  x !! j = Some b → b :: <[j := a]> x ≡ₚ a :: x.
Proof.
  revert j. induction x as [|c x IH]; intros [|j] Hj; simplify_eq/=.
  - apply perm_swap.
  - rewrite perm_swap, (IH _ Hj). apply perm_swap.
Qed.

Lemma swap_perm (i j : nat) x : Random.swap i j x ≡ₚ x.
Proof.
  unfold Random.swap.
  destruct (x !! i) as [xi|] eqn:Hi; [|done].
  destruct (x !! j) as [xj|] eqn:Hj; [|done].
  revert i j Hi Hj. induction x as [|c x IH]; intros [|i] [|j] Hi Hj;
    simplify_eq/=; try done.
  - by apply insert_head_perm.
  - by apply insert_head_perm.
  - by rewrite (IH _ _ Hi Hj).
Qed.

Lemma shuffle_from_perm (i : nat) x tape :
  (Random.shuffle_from i x tape).1 ≡ₚ x.
Proof.
  revert x tape. induction i as [|i IH]; intros x tape; [done|].
  cbn [Random.shuffle_from].
  destruct (Random.randbelow (S (S i)) tape) as [j tape'].
  rewrite IH. apply swap_perm.
Qed.

Lemma shuffle_perm x tape : (Random.shuffle x tape).1 ≡ₚ x.
Proof. apply shuffle_from_perm. Qed.

End Shuffle.

(** ** What [solve] does to the state *)

Section World.

Variable solver : LpProblem → LpSolution.

Lemma shuffle_interns_shuffled self randomize w :
  (shuffle_interns self randomize w).1 ≡ₚ read_list w (interns self).
Proof.
  unfold shuffle_interns.
  pose proof (shuffle_perm (read_list w (interns self)) (rng w)) as Hp.
  destruct (Random.shuffle (read_list w (interns self)) (rng w)) as [sh tape].
  destruct randomize; [|done].
  by destruct (Random.shuffle (read_list w (interns self)) tape).
Qed.

Lemma shuffle_interns_read self randomize w :
  read_list (shuffle_interns self randomize w).2 (interns self)
  ≡ₚ read_list w (interns self).
Proof.
  unfold shuffle_interns.
  destruct (Random.shuffle (read_list w (interns self)) (rng w)) as [sh tape].
  destruct randomize; [|done].
  pose proof (shuffle_perm (read_list w (interns self)) tape) as Hp.
  destruct (Random.shuffle (read_list w (interns self)) tape) as [l tape'].
  unfold read_list at 1. simpl. by rewrite lookup_insert_eq.
Qed.

Lemma shuffle_interns_frame self randomize w (l : loc) :
  l ≠ interns self →
  heap (shuffle_interns self randomize w).2 !! l = heap w !! l.
Proof.
  intros Hl. unfold shuffle_interns.
  destruct (Random.shuffle (read_list w (interns self)) (rng w)) as [sh tape].
  destruct randomize; [|done].
  destruct (Random.shuffle (read_list w (interns self)) tape) as [l' tape'].
  simpl. by rewrite lookup_insert_ne.
Qed.

Lemma shuffle_interns_keep self w :
  heap (shuffle_interns self false w).2 = heap w.
Proof.
  unfold shuffle_interns.
  by destruct (Random.shuffle (read_list w (interns self)) (rng w)).
Qed.

Lemma solve_checked_world fuel self randomize w :
  (solve_checked solver fuel self randomize w).2
  = (shuffle_interns self randomize w).2.
Proof.
  unfold solve_checked. by destruct (shuffle_interns self randomize w).
Qed.

Lemma solve_world fuel self randomize w :
  (solve solver fuel self randomize w).2 = w
  ∨ (solve solver fuel self randomize w).2
    = (shuffle_interns self randomize w).2.
Proof.
  unfold solve. destruct (verify_units _ _); simpl; auto.
  right. apply solve_checked_world.
Qed.

End World.

(** C9: [solve] with [randomize=True] shuffles the caller's own list.
    Whatever the outcome, the list at the location given to the
    constructor is afterwards a permutation of what it was, and no other
    list is touched; and there is a run that returns and leaves that list
    in another order. *)
Theorem C9_randomize_shuffles_callers_list :
  (∀ solver fuel self w,
     read_list (solve solver fuel self true w).2 (interns self)
     ≡ₚ read_list w (interns self))
  ∧ (∀ solver fuel self w (l : loc),
     l = interns self
     ∨ heap (solve solver fuel self true w).2 !! l = heap w !! l)
  ∧ (∃ s',
       interns Examples.pair_weekdays = Examples.roster
       ∧ read_list (Examples.world_of ["A"; "B"]%string [1; 0]%nat)
           Examples.roster = ["A"; "B"]%string
       ∧ (solve Examples.null_solver 1 Examples.pair_weekdays true
            (Examples.world_of ["A"; "B"]%string [1; 0]%nat)).1 = Returned s'
       ∧ interns s' = Examples.roster
       ∧ read_list
           (solve Examples.null_solver 1 Examples.pair_weekdays true
              (Examples.world_of ["A"; "B"]%string [1; 0]%nat)).2
           Examples.roster = ["B"; "A"]%string).
Proof.
  split; [|split].
  - intros solver fuel self w.
    destruct (solve_world solver fuel self true w) as [-> | ->]; [done|].
    apply shuffle_interns_read.
  - intros solver fuel self w l.
    destruct (decide (l = interns self)) as [|Hl]; [by left|right].
    destruct (solve_world solver fuel self true w) as [-> | ->]; [done|].
    by apply shuffle_interns_frame.
  - eexists. split; [reflexivity|]. split; [reflexivity|].
    split; [vm_compute; reflexivity|]. split; reflexivity.
Qed.

(** ** The weekend pre-distribution *)

Section Distribution.

Variables es eu : Z.

#[local] Abbreviation near_expected := (Spec.near_expected es eu).

Lemma lookup_fold_insert `{Countable K} {V : Type} (v : V) (l : list K)
    (m : gmap K V) (k : K) :
  foldl (λ m i, <[i := v]> m) m l !! k
  = if decide (k ∈ l) then Some v else m !! k.
Proof.
  revert m. induction l as [|i l IH]; intros m.
  - destruct (decide (k ∈ [])) as [Hk|Hk]; [|done].
    by apply not_elem_of_nil in Hk.
  - cbn [foldl]. rewrite IH.
    destruct (decide (k ∈ l)) as [Hk|Hk];
      destruct (decide (k ∈ i :: l)) as [Hk'|Hk']; try done.
    + exfalso. apply Hk'. by right.
    + apply elem_of_cons in Hk' as [->|?]; [|done].
      by rewrite lookup_insert_eq.
    + rewrite lookup_insert_ne; [done|]. intros ->. apply Hk'. left.
Qed.

Lemma lookup_init_distribution (l : list string) (k : string) :
  init_distribution l es eu !! k
  = if decide (k ∈ l) then Some (es, eu) else None.
Proof.
  unfold init_distribution. rewrite lookup_fold_insert.
  by rewrite lookup_empty.
Qed.

Lemma near_expected_init l : near_expected (init_distribution l es eu).
Proof.
  intros i t. rewrite lookup_init_distribution.
  case_decide; [|done]. intros [= <-]. simpl. lia.
Qed.

Lemma near_expected_insert wd i t :
  es ≤ t.1 ≤ es + 1 → eu ≤ t.2 ≤ eu + 1 →
  near_expected wd → near_expected (<[i := t]> wd).
Proof.
  intros H1 H2 Hwd k t'. destruct (decide (i = k)) as [->|Hne].
  - rewrite lookup_insert_eq. by intros [= <-].
  - rewrite lookup_insert_ne by done. apply Hwd.
Qed.

(** One pass over persons that still hold the bare quotients: it returns,
    keeps every target near the quotients, keeps the keys, and uses up the
    Saturday remainder first. *)
Lemma for_pass_spec (l : list string) :
  ∀ wd rs ru,
    NoDup l → 0 ≤ rs → 0 ≤ ru →
    (∀ i, i ∈ l → wd !! i = Some (es, eu)) →
    near_expected wd →
    ∃ wd' rs' ru',
      for_pass l wd rs ru = Returned (wd', rs', ru')
      ∧ near_expected wd'
      ∧ (∀ k, is_Some (wd' !! k) ↔ is_Some (wd !! k))
      ∧ rs' = Z.max 0 (rs - Z.of_nat (length l))
      ∧ 0 ≤ ru' ≤ ru.
Proof.
  induction l as [|i l IH]; intros wd rs ru Hnd Hrs Hru Hl Hwd.
  - exists wd, rs, ru. cbn [for_pass length]. split_and!; try done; lia.
  - apply NoDup_cons in Hnd as [Hi Hnd]. cbn [for_pass].
    destruct ((rs =? 0) && (ru =? 0)) eqn:Hz.
    { apply andb_true_iff in Hz as [->%Z.eqb_eq ->%Z.eqb_eq].
      exists wd, 0, 0. split_and!; try done; lia. }
    assert (wd !! i = Some (es, eu)) as Hwi by (apply Hl; left).
    assert (∀ t k, k ∈ l → <[i := t]> wd !! k = Some (es, eu)) as Hrest.
    { intros t k Hk. rewrite lookup_insert_ne by (by intros ->).
      apply Hl. by right. }
    assert (∀ t k, is_Some (<[i := t]> wd !! k) ↔ is_Some (wd !! k)) as Hdom.
    { intros t k. destruct (decide (i = k)) as [<-|Hne].
      - rewrite lookup_insert_eq, Hwi. split; eauto.
      - by rewrite lookup_insert_ne. }
    destruct (rs >? 0) eqn:Hrs0.
    + apply Z.gtb_lt in Hrs0. unfold getitem. rewrite Hwi. cbn [bind fst snd].
      destruct (IH (<[i := (es + 1, eu)]> wd) (rs - 1) ru)
        as (wd' & rs' & ru' & Hfp & Hnear & Hkeys & Hrs' & Hru');
        [done|lia|done|apply Hrest| |].
      { apply near_expected_insert; simpl; [lia|lia|done]. }
      exists wd', rs', ru'. split_and!; try done; try lia.
      * intros k. rewrite Hkeys. apply Hdom.
      * rewrite length_cons. lia.
    + rewrite Z.gtb_ltb in Hrs0. apply Z.ltb_ge in Hrs0. assert (rs = 0) as -> by lia.
      simpl in Hz. apply Z.eqb_neq in Hz.
      destruct (ru >? 0) eqn:Hru0;
        [|rewrite Z.gtb_ltb in Hru0; apply Z.ltb_ge in Hru0; lia].
      unfold getitem. rewrite Hwi. cbn [bind fst snd].
      destruct (IH (<[i := (es, eu + 1)]> wd) 0 (ru - 1))
        as (wd' & rs' & ru' & Hfp & Hnear & Hkeys & Hrs' & Hru');
        [done|lia|lia|apply Hrest| |].
      { apply near_expected_insert; simpl; [lia|lia|done]. }
      exists wd', rs', ru'. split_and!; try done; try lia.
      intros k. rewrite Hkeys. apply Hdom.
Qed.

(** The loop makes at most one pass when the Saturday remainder is below
    the number of persons, so one unit of fuel is enough. *)
Lemma while_remainders_spec fuel (interns shuffled : list string) rs ru :
  NoDup interns → shuffled ≡ₚ interns →
  0 ≤ rs < Z.of_nat (length interns) → 0 ≤ ru →
  ∃ wd' rs' ru',
    while_remainders (S fuel) shuffled (init_distribution interns es eu) rs ru
    = Returned (wd', rs', ru')
    ∧ near_expected wd'
    ∧ (∀ k, is_Some (wd' !! k) ↔ k ∈ interns).
Proof.
  intros Hnd Hp Hrs Hru.
  assert (∀ k, is_Some (init_distribution interns es eu !! k) ↔ k ∈ interns)
    as Hkeys0.
  { intros k. rewrite lookup_init_distribution.
    destruct (decide (k ∈ interns)) as [Hk|Hk]; split; intros H;
      try done; eauto. }
  cbn [while_remainders].
  destruct ((rs >? 0) && (ru >? 0)) eqn:Hc.
  - destruct (for_pass_spec shuffled (init_distribution interns es eu) rs ru)
      as (wd' & rs' & ru' & Hfp & Hnear & Hkeys & Hrs' & Hru');
      [by rewrite Hp|lia|lia| |apply near_expected_init|].
    { intros i Hi. rewrite lookup_init_distribution.
      rewrite decide_True; [done|]. by rewrite <- Hp. }
    rewrite Hfp. cbn [bind fst snd].
    assert (rs' = 0) as ->.
    { rewrite Hrs'. rewrite Hp. lia. }
    exists wd', 0, ru'. split; [by destruct fuel|]. split; [done|].
    intros k. by rewrite Hkeys.
  - exists (init_distribution interns es eu), rs, ru.
    split; [done|]. split; [apply near_expected_init | done].
Qed.

End Distribution.

Lemma distribute_weekends_returns fuel dates M (interns shuffled : list string) :
  NoDup interns → interns ≠ [] → shuffled ≡ₚ interns →
  ∃ wd rs ru,
    distribute_weekends (S fuel) dates M interns shuffled
    = Returned (wd, rs, ru)
    ∧ near_expected
        (count_weekday 5 dates * M / Z.of_nat (length interns))
        (count_weekday 6 dates * M / Z.of_nat (length interns)) wd
    ∧ (∀ k, is_Some (wd !! k) ↔ k ∈ interns).
Proof.
  intros Hnd Hne Hp. unfold distribute_weekends, floordiv, pymod.
  assert (0 < Z.of_nat (length interns)) as Hn.
  { destruct interns; [done|]. rewrite length_cons. lia. }
  destruct (Z.of_nat (length interns) =? 0) eqn:E;
    [apply Z.eqb_eq in E; lia|].
  cbn [bind].
  apply while_remainders_spec; try done.
  - apply Z.mod_pos_bound. lia.
  - apply Z.mod_pos_bound. lia.
Qed.

(** C5: for a non-empty list of distinct persons, the pre-distribution
    returns, gives a pair of targets to exactly the persons of the list,
    and any two persons' Saturday targets differ by at most 1, as do their
    Sunday targets. *)
Theorem C5_targets_within_one
    fuel dates M (interns shuffled_interns : list string) :
  NoDup interns → interns ≠ [] → shuffled_interns ≡ₚ interns →
  ∃ wd,
    weekend_targets (S fuel) dates M interns shuffled_interns = Returned wd
    ∧ (∀ i, i ∈ interns ↔ is_Some (wd !! i))
    ∧ ∀ a b ta tb, wd !! a = Some ta → wd !! b = Some tb →
        Z.abs (ta.1 - tb.1) ≤ 1 ∧ Z.abs (ta.2 - tb.2) ≤ 1.
Proof.
  intros Hnd Hne Hp.
  destruct (distribute_weekends_returns fuel dates M interns shuffled_interns
              Hnd Hne Hp) as (wd & rs & ru & Hd & Hnear & Hkeys).
  exists wd. unfold weekend_targets. rewrite Hd. split; [done|].
  split; [intros i; by rewrite Hkeys|].
  intros a b ta tb Ha Hb.
  destruct (Hnear a ta Ha) as [? ?]. destruct (Hnear b tb Hb) as [? ?]. lia.
Qed.

(** Witness of C5: two persons, one Saturday and one Sunday, one person
    on duty a day. *)
Lemma C5_witness :
  ∃ wd,
    weekend_targets 1 (dates Examples.pair_weekend) 1
      ["A"; "B"]%string ["B"; "A"]%string = Returned wd
    ∧ (∀ i, i ∈ ["A"; "B"]%string ↔ is_Some (wd !! i))
    ∧ ∀ a b ta tb, wd !! a = Some ta → wd !! b = Some tb →
        Z.abs (ta.1 - tb.1) ≤ 1 ∧ Z.abs (ta.2 - tb.2) ≤ 1.
Proof.
  apply (C5_targets_within_one 0 (dates Examples.pair_weekend) 1
           ["A"; "B"]%string ["B"; "A"]%string).
  - apply (bool_decide_unpack _). by vm_compute.
  - discriminate.
  - apply perm_swap.
Defined.

(** When the guard of the loop is false at the start, no remainder is
    handed out at all. *)
Lemma distribute_weekends_no_pass fuel dates M (interns shuffled : list string) :
  interns ≠ [] →
  (count_weekday 5 dates * M) mod Z.of_nat (length interns) = 0
  ∨ (count_weekday 6 dates * M) mod Z.of_nat (length interns) = 0 →
  distribute_weekends fuel dates M interns shuffled
  = Returned
      (init_distribution interns
         (count_weekday 5 dates * M / Z.of_nat (length interns))
         (count_weekday 6 dates * M / Z.of_nat (length interns)),
       (count_weekday 5 dates * M) mod Z.of_nat (length interns),
       (count_weekday 6 dates * M) mod Z.of_nat (length interns)).
Proof.
  intros Hne Hz. unfold distribute_weekends, floordiv, pymod.
  assert (0 < Z.of_nat (length interns)) as Hn.
  { destruct interns; [done|]. rewrite length_cons. lia. }
  destruct (Z.of_nat (length interns) =? 0) eqn:E;
    [apply Z.eqb_eq in E; lia|].
  cbn [bind].
  assert (∀ rs ru wd, rs = 0 ∨ ru = 0 →
            while_remainders fuel shuffled wd rs ru = Returned (wd, rs, ru))
    as Hw.
  { intros rs ru wd [-> | ->]; destruct fuel; simpl; try done;
      by rewrite andb_false_r. }
  by apply Hw.
Qed.

(** C3, on the code: the guard of the loop is the conjunction of the two
    tests, so the loop stops as soon as one remainder is zero.  With two
    persons and a single Saturday the Saturday remainder is 1 and the
    Sunday remainder 0: the loop is not entered, both Saturday targets stay
    0, and their sum is 0 where one Saturday slot is demanded.  With three
    persons, two on duty a day, one Saturday and one Sunday, both
    remainders are 2: the one pass hands out two Saturdays and one Sunday,
    and the loop stops with a Sunday slot left; the Sunday targets sum to 1
    where 2 are demanded. *)
Theorem C3_remainder_left_over :
  (∀ fuel shuffled_interns,
     ∃ wd,
       distribute_weekends fuel (dates Examples.pair_saturday)
         (min_interns_per_duty Examples.pair_saturday)
         ["A"; "B"]%string shuffled_interns = Returned (wd, 1, 0)
       ∧ wd !! "A"%string = Some (0, 0) ∧ wd !! "B"%string = Some (0, 0)
       ∧ total_saturday_targets wd = 0
       ∧ count_weekday 5 (dates Examples.pair_saturday)
         * min_interns_per_duty Examples.pair_saturday = 1)
  ∧ (∃ wd,
       distribute_weekends 1 (dates Examples.trio_weekend)
         (min_interns_per_duty Examples.trio_weekend)
         ["A"; "B"; "C"]%string ["A"; "B"; "C"]%string = Returned (wd, 0, 1)
       ∧ total_saturday_targets wd = 2
       ∧ total_sunday_targets wd = 1
       ∧ count_weekday 6 (dates Examples.trio_weekend)
         * min_interns_per_duty Examples.trio_weekend = 2).
Proof.
  split.
  - intros fuel shuffled_interns. eexists. split.
    + rewrite distribute_weekends_no_pass; [|discriminate|by right].
      f_equal.
    + split_and!; by vm_compute.
  - eexists. split; [vm_compute; reflexivity|]. split_and!; by vm_compute.
Qed.

(** C10: with [randomize=False] the shuffle of the copy is still drawn from
    the generator, and the weekend targets depend on it.  Two persons, one
    Saturday and one Sunday, one person on duty a day: from the same list
    and the same object, a generator that draws 1 gives the extra Saturday
    to A, one that draws 0 gives it to B; the caller's list is left as it
    was in both runs, and both runs of [solve] return. *)
Theorem C10_targets_depend_on_generator :
  let self := Examples.pair_weekend in
  let w1 := Examples.world_of ["A"; "B"]%string [1]%nat in
  let w2 := Examples.world_of ["A"; "B"]%string [0]%nat in
  ∃ p1 wd1 p2 wd2 s1 s2,
    heap w1 = heap w2
    ∧ heap (shuffle_interns self false w1).2 = heap w1
    ∧ heap (shuffle_interns self false w2).2 = heap w2
    ∧ build_problem 1 self
        (read_list (shuffle_interns self false w1).2 (interns self))
        (shuffle_interns self false w1).1 = Returned (p1, wd1)
    ∧ build_problem 1 self
        (read_list (shuffle_interns self false w2).2 (interns self))
        (shuffle_interns self false w2).1 = Returned (p2, wd2)
    ∧ wd1 !! "A"%string = Some (1, 0) ∧ wd1 !! "B"%string = Some (0, 1)
    ∧ wd2 !! "A"%string = Some (0, 1) ∧ wd2 !! "B"%string = Some (1, 0)
    ∧ p1 ≠ p2
    ∧ (solve Examples.null_solver 1 self false w1).1 = Returned s1
    ∧ (solve Examples.null_solver 1 self false w2).1 = Returned s2.
Proof.
  simpl. do 6 eexists.
  split; [reflexivity|]. split; [reflexivity|]. split; [reflexivity|].
  split; [vm_compute; reflexivity|]. split; [vm_compute; reflexivity|].
  split; [by vm_compute|]. split; [by vm_compute|].
  split; [by vm_compute|]. split; [by vm_compute|].
  split; [by vm_compute|].
  split; vm_compute; reflexivity.
Qed.

(** ** The metrics *)

Section AverageSpacing.

Lemma consecutive_gaps_single (l : list Z) :
  length l = 1%nat → consecutive_gaps l = 0.
Proof. by destruct l as [|a [|b l]]. Qed.

Lemma add_gaps_drop (shifts : list Z) (m k : nat) (t : Z) :
  (1 ≤ k)%nat → (k + m)%nat = length shifts →
  add_gaps shifts (seq k m) t
  = Returned (t + consecutive_gaps (drop (k - 1) shifts)).
Proof.
  revert k t. induction m as [|m IH]; intros k t Hk Hlen.
  - cbn [seq add_gaps]. rewrite consecutive_gaps_single.
    + f_equal. lia.
    + rewrite length_drop. lia.
  - cbn [seq add_gaps]. unfold index.
    destruct (lookup_lt_is_Some_2 shifts k) as [a Ha]; [lia|].
    destruct (lookup_lt_is_Some_2 shifts (k - 1)) as [b Hb]; [lia|].
    rewrite Ha, Hb. cbn [bind].
    rewrite IH by lia.
    rewrite (drop_S shifts b (k - 1) Hb).
    replace (S (k - 1)) with k by lia.
    rewrite (drop_S shifts a k Ha).
    replace (S k - 1)%nat with k by lia.
    rewrite (drop_S shifts a k Ha).
    cbn [consecutive_gaps]. f_equal. lia.
Qed.

Lemma add_gaps_all (shifts : list Z) (t : Z) :
  shifts ≠ [] →
  add_gaps shifts (seq 1 (length shifts - 1)) t
  = Returned (t + consecutive_gaps shifts).
Proof.
  intros Hne. rewrite add_gaps_drop; [done|lia|].
  destruct shifts; [done|]. rewrite length_cons. lia.
Qed.

Lemma compute_average_spacing_gaps (dates shifts : list Z) d0 dl s0 sl :
  head dates = Some d0 → last dates = Some dl →
  head shifts = Some s0 → last shifts = Some sl →
  compute_average_spacing dates shifts
  = Returned (Some (Qmake (total_gap d0 dl s0 sl shifts)
                          (Pos.of_succ_nat (length shifts)))).
Proof.
  intros Hd0 Hdl Hs0 Hsl. unfold compute_average_spacing.
  destruct shifts as [|s shifts]; [done|].
  unfold index, index_last. rewrite <- !head_lookup, Hd0, Hs0, Hdl, Hsl.
  cbn [bind]. rewrite add_gaps_all by done. cbn [bind].
  unfold total_gap. do 3 f_equal. lia.
Qed.

Lemma compute_average_spacing_returns (dates shifts : list Z) :
  shifts ⊆ dates →
  ∃ avg, compute_average_spacing dates shifts = Returned avg.
Proof.
  intros Hsub. destruct shifts as [|s rest]; [by eexists|].
  destruct dates as [|d0 drest].
  { assert (s ∈ []) as Hs by (apply Hsub; left).
    by apply not_elem_of_nil in Hs. }
  destruct (last (d0 :: drest)) as [dl|] eqn:Hdl;
    [|by apply last_None in Hdl].
  destruct (last (s :: rest)) as [sl|] eqn:Hsl;
    [|by apply last_None in Hsl].
  eexists.
  by apply (compute_average_spacing_gaps (d0 :: drest) (s :: rest) d0 dl s sl).
Qed.

End AverageSpacing.

Section Extraction.

Variable val : var → option Z.

Lemma count_weekday_cons n d l :
  count_weekday n (d :: l)
  = (if decide (weekday d = n) then 1 else 0) + count_weekday n l.
Proof.
  unfold count_weekday. rewrite filter_cons.
  destruct (decide (weekday d = n)); [rewrite length_cons|]; lia.
Qed.

Lemma count_weekdays_cons d l :
  count_weekdays (d :: l)
  = (if decide (weekday d < 5) then 1 else 0) + count_weekdays l.
Proof.
  unfold count_weekdays. rewrite filter_cons.
  destruct (decide (weekday d < 5)); [rewrite length_cons|]; lia.
Qed.

Lemma shifts_of_cons_chosen i d ds :
  val (i, d) = Some 1 → shifts_of val (d :: ds) i = d :: shifts_of val ds i.
Proof. intros H. unfold shifts_of. by rewrite filter_cons_True. Qed.

Lemma shifts_of_cons_other i d ds :
  val (i, d) ≠ Some 1 → shifts_of val (d :: ds) i = shifts_of val ds i.
Proof. intros H. unfold shifts_of. by rewrite filter_cons_False. Qed.

Lemma shifts_of_subseteq dates i : shifts_of val dates i ⊆ dates.
Proof. intros d Hd. unfold shifts_of in Hd. by apply list_elem_of_filter in Hd as [_ ?]. Qed.

(** The inner loop: it returns when every date is a key of the schedule,
    and then the locals are the sums and counts over the chosen dates, and
    [i] has been appended to the list of each chosen date. *)
Lemma scan_dates_spec (i : string) (ds : list Z) :
  ∀ st, NoDup ds →
    (∀ d, d ∈ ds → is_Some (sc_schedule st !! d)) →
    ∃ st',
      scan_dates val i ds st = Returned st'
      ∧ sc_shifts st' = sc_shifts st ++ shifts_of val ds i
      ∧ sc_total_units_used st'
        = sc_total_units_used st
          + sum_Z (get_units_for_day <$> shifts_of val ds i)
      ∧ sc_weekdays st' = sc_weekdays st + count_weekdays (shifts_of val ds i)
      ∧ sc_saturdays st'
        = sc_saturdays st + count_weekday 5 (shifts_of val ds i)
      ∧ sc_sundays st' = sc_sundays st + count_weekday 6 (shifts_of val ds i)
      ∧ ∀ d, sc_schedule st' !! d
             = if decide (d ∈ ds ∧ val (i, d) = Some 1)
               then (λ l, l ++ [i]) <$> sc_schedule st !! d
               else sc_schedule st !! d.
Proof.
  induction ds as [|d ds IH]; intros st Hnd Hkeys.
  - exists st. cbn [scan_dates]. unfold shifts_of. rewrite filter_nil.
    split_and!; try done; try (unfold count_weekdays, count_weekday; simpl; lia).
    by rewrite app_nil_r.
  - apply NoDup_cons in Hnd as [Hd Hnd]. cbn [scan_dates].
    destruct (bool_decide (val (i, d) = Some 1)) eqn:Hv.
    + apply bool_decide_eq_true in Hv.
      destruct (Hkeys d) as [l Hl]; [left|].
      unfold getitem. rewrite Hl. cbn [bind].
      set (sched := <[d := l ++ [i]]> (sc_schedule st)).
      match goal with
      | |- ∃ st', scan_dates val i ds ?s = _ ∧ _ => set (st1 := s)
      end.
      assert (sc_shifts st1 = sc_shifts st ++ [d]
              ∧ sc_total_units_used st1
                = sc_total_units_used st + get_units_for_day d
              ∧ sc_weekdays st1
                = sc_weekdays st + (if decide (weekday d < 5) then 1 else 0)
              ∧ sc_saturdays st1
                = sc_saturdays st + (if decide (weekday d = 5) then 1 else 0)
              ∧ sc_sundays st1
                = sc_sundays st + (if decide (weekday d = 6) then 1 else 0)
              ∧ sc_schedule st1 = sched) as (E1 & E2 & E3 & E4 & E5 & E6).
      { subst st1. pose proof (weekday_range d).
        destruct (weekday d <? 5) eqn:C1.
        { apply Z.ltb_lt in C1. simpl.
          repeat case_decide; split_and!; try done; lia. }
        apply Z.ltb_ge in C1.
        destruct (weekday d =? 5) eqn:C2.
        { apply Z.eqb_eq in C2. simpl.
          repeat case_decide; split_and!; try done; lia. }
        apply Z.eqb_neq in C2.
        destruct (weekday d =? 6) eqn:C3.
        { apply Z.eqb_eq in C3. simpl.
          repeat case_decide; split_and!; try done; lia. }
        apply Z.eqb_neq in C3. lia. }
      destruct (IH st1 Hnd) as (st' & Hs & H1 & H2 & H3 & H4 & H5 & H6).
      { intros d' Hd'. rewrite E6. subst sched.
        destruct (decide (d = d')) as [<-|Hne].
        - rewrite lookup_insert_eq. eauto.
        - rewrite lookup_insert_ne by done. apply Hkeys. by right. }
      exists st'. rewrite shifts_of_cons_chosen by done.
      rewrite fmap_cons, sum_Z_cons, count_weekdays_cons, !count_weekday_cons.
      split_and!; try done.
      * rewrite H1, E1. by rewrite <- app_assoc.
      * lia.
      * lia.
      * lia.
      * lia.
      * intros d'. rewrite H6, E6. subst sched.
        destruct (decide (d = d')) as [<-|Hne].
        -- rewrite lookup_insert_eq, Hl.
           rewrite decide_False by (by intros [? _]).
           rewrite decide_True; [done|]. split; [left|done].
        -- rewrite lookup_insert_ne by done.
           destruct (decide (d' ∈ ds ∧ val (i, d') = Some 1)) as [[? ?]|Hn].
           ++ rewrite decide_True; [done|]. split; [by right|done].
           ++ rewrite decide_False; [done|].
              intros [[?|?]%elem_of_cons ?]; [congruence|]. by apply Hn.
    + apply bool_decide_eq_false in Hv.
      destruct (IH st Hnd) as (st' & Hs & H1 & H2 & H3 & H4 & H5 & H6).
      { intros d' Hd'. apply Hkeys. by right. }
      exists st'. rewrite shifts_of_cons_other by done.
      split_and!; try done.
      intros d'. rewrite H6.
      destruct (decide (d' ∈ ds ∧ val (i, d') = Some 1)) as [[? ?]|Hn].
      * rewrite decide_True; [done|]. split; [by right|done].
      * rewrite decide_False; [done|].
        intros [[->|?]%elem_of_cons ?]; [done|]. by apply Hn.
Qed.

End Extraction.

Section Extracted.

Variable val : var → option Z.
Variable dates : list Z.
Hypothesis dates_nodup : NoDup dates.

Lemma lookup_empty_schedule (ds : list Z) (d : Z) :
  empty_schedule ds !! d = if decide (d ∈ ds) then Some [] else None.
Proof.
  unfold empty_schedule. rewrite lookup_fold_insert. by rewrite lookup_empty.
Qed.

Lemma extract_intern_spec (sched : gmap Z (list string))
    (metrics : gmap string Metrics) (i : string) :
  (∀ d, d ∈ dates → is_Some (sched !! d)) →
  ∃ sched' m,
    extract_intern val dates (sched, metrics) i
    = Returned (sched', <[i := m]> metrics)
    ∧ metrics_of val dates i m
    ∧ ∀ d, sched' !! d
           = if decide (d ∈ dates ∧ val (i, d) = Some 1)
             then (λ l, l ++ [i]) <$> sched !! d
             else sched !! d.
Proof.
  intros Hkeys. unfold extract_intern. cbn [fst snd].
  destruct (scan_dates_spec val i dates (mkScan [] 0 0 0 0 sched) dates_nodup)
    as (st' & Hs & H1 & H2 & H3 & H4 & H5 & H6); [done|].
  rewrite Hs. cbn [bind]. simpl in H1, H2, H3, H4, H5, H6.
  destruct (compute_average_spacing_returns dates (sc_shifts st')) as [avg Ha].
  { rewrite H1. apply shifts_of_subseteq. }
  rewrite Ha. cbn [bind]. eexists _, _. split; [reflexivity|].
  split; [|done].
  unfold metrics_of.
  cbn [total_units_used num_shifts weekdays saturdays sundays average_spacing].
  rewrite H1 in Ha |- *. split_and!; try done; lia.
Qed.

Lemma extract_interns_spec (interns : list string) :
  ∀ (sched : gmap Z (list string)) (metrics : gmap string Metrics),
    (∀ d, d ∈ dates → is_Some (sched !! d)) →
    ∃ sched' metrics',
      extract_interns val dates interns (sched, metrics)
      = Returned (sched', metrics')
      ∧ (∀ d, d ∈ dates →
           sched' !! d = (λ l, l ++ staff_of val interns d) <$> sched !! d)
      ∧ (∀ d, d ∉ dates → sched' !! d = sched !! d)
      ∧ (∀ i, i ∈ interns →
           ∃ m, metrics' !! i = Some m ∧ metrics_of val dates i m)
      ∧ (∀ i, i ∉ interns → metrics' !! i = metrics !! i).
Proof.
  induction interns as [|a rest IH]; intros sched metrics Hkeys.
  - exists sched, metrics. cbn [extract_interns]. split_and!; try done.
    + intros d Hd. unfold staff_of. rewrite filter_nil.
      destruct (sched !! d); simpl; [by rewrite app_nil_r|done].
    + intros i Hi. by apply not_elem_of_nil in Hi.
  - cbn [extract_interns].
    destruct (extract_intern_spec sched metrics a Hkeys)
      as (sched1 & m & He & Hm & Hs1).
    rewrite He. cbn [bind].
    destruct (IH sched1 (<[a := m]> metrics))
      as (sched' & metrics' & Hr & Hd1 & Hd2 & Hm1 & Hm2).
    { intros d Hd. rewrite Hs1. destruct (Hkeys d Hd) as [l Hl].
      rewrite Hl. case_decide; simpl; eauto. }
    exists sched', metrics'. split; [done|]. split_and!.
    + intros d Hd. rewrite (Hd1 d Hd), Hs1. unfold staff_of.
      rewrite filter_cons.
      destruct (Hkeys d Hd) as [l Hl]. rewrite Hl.
      destruct (decide (val (a, d) = Some 1)) as [Hv|Hv].
      * rewrite decide_True by done. simpl. by rewrite <- app_assoc.
      * rewrite decide_False by (by intros [_ ?]). done.
    + intros d Hd. rewrite (Hd2 d Hd), Hs1.
      by rewrite decide_False by (by intros [? _]).
    + intros i [->|Hi]%elem_of_cons.
      * destruct (decide (a ∈ rest)) as [Hin|Hin]; [by apply Hm1|].
        exists m. rewrite (Hm2 a Hin). by rewrite lookup_insert_eq.
      * by apply Hm1.
    + intros i Hi. apply not_elem_of_cons in Hi as [Hne Hi].
      rewrite (Hm2 i Hi). by rewrite lookup_insert_ne.
Qed.

(** The extraction returns; on each date of the horizon the schedule lists
    the persons whose variable is 1, in the order of [interns]; and each
    person of the list has a metrics record. *)
Lemma extract_solution_spec (interns : list string) :
  ∃ sched metrics,
    extract_solution val dates interns = Returned (sched, metrics)
    ∧ (∀ d, d ∈ dates → sched !! d = Some (staff_of val interns d))
    ∧ (∀ d, d ∉ dates → sched !! d = None)
    ∧ (∀ i, i ∈ interns →
         ∃ m, metrics !! i = Some m ∧ metrics_of val dates i m)
    ∧ (∀ i, i ∉ interns → metrics !! i = None).
Proof.
  unfold extract_solution.
  destruct (extract_interns_spec interns (empty_schedule dates) ∅)
    as (sched & metrics & Hr & Hd1 & Hd2 & Hm1 & Hm2).
  { intros d Hd. rewrite lookup_empty_schedule. rewrite decide_True by done.
    eauto. }
  exists sched, metrics. split; [done|]. split_and!; try done.
  - intros d Hd. rewrite (Hd1 d Hd), lookup_empty_schedule.
    by rewrite decide_True by done.
  - intros d Hd. rewrite (Hd2 d Hd), lookup_empty_schedule.
    by rewrite decide_False by done.
Qed.

End Extracted.

Lemma NoDup_generate_dates s e : NoDup (generate_dates s e).
Proof.
  unfold generate_dates. apply NoDup_fmap_2; [|apply NoDup_seq].
  intros a b Hab. lia.
Qed.

(** C6: for every person of the list, the extraction returns a metrics
    record whose number of shifts is the number of dates the person is on
    duty.  With no shift the average spacing is [None].  With at least one
    shift it is the total of the gap from the first date of the horizon to
    the first shift, the gaps between consecutive shifts and the gap from
    the last shift to the last date of the horizon, divided by the number
    of shifts plus one. *)
Theorem C6_average_spacing
    (val : var → option Z) (dates : list Z) (interns : list string)
    (i : string) :
  NoDup dates → i ∈ interns →
  ∃ sched metrics m,
    extract_solution val dates interns = Returned (sched, metrics)
    ∧ metrics !! i = Some m
    ∧ num_shifts m = length (shifts_of val dates i)
    ∧ match shifts_of val dates i with
      | [] => average_spacing m = None
      | first_shift :: _ =>
          ∃ horizon_start horizon_end last_shift q,
            head dates = Some horizon_start
            ∧ last dates = Some horizon_end
            ∧ last (shifts_of val dates i) = Some last_shift
            ∧ average_spacing m = Some q
            ∧ (q == average_of
                      (total_gap horizon_start horizon_end
                         first_shift last_shift (shifts_of val dates i))
                      (num_shifts m))%Q
      end.
Proof.
  intros Hnd Hi.
  destruct (extract_solution_spec val dates Hnd interns)
    as (sched & metrics & Hr & _ & _ & Hm & _).
  destruct (Hm i Hi) as (m & Hmi & Hu & Hn & _ & _ & _ & Ha).
  exists sched, metrics, m. split_and!; try done.
  pose proof (shifts_of_subseteq val dates i) as Hsub.
  destruct (shifts_of val dates i) as [|s0 rest] eqn:E.
  - simpl in Ha. congruence.
  - destruct dates as [|d0 drest].
    { assert (s0 ∈ []) as Hs by (apply Hsub; left).
      by apply not_elem_of_nil in Hs. }
    destruct (last (d0 :: drest)) as [dl|] eqn:Hdl;
      [|by apply last_None in Hdl].
    destruct (last (s0 :: rest)) as [sl|] eqn:Hsl;
      [|by apply last_None in Hsl].
    rewrite (compute_average_spacing_gaps (d0 :: drest) (s0 :: rest)
               d0 dl s0 sl) in Ha by done.
    injection Ha as Ha.
    exists d0, dl, sl, (Qmake (total_gap d0 dl s0 sl (s0 :: rest))
                          (Pos.of_succ_nat (length (s0 :: rest)))).
    split_and!; try done.
    rewrite Hn. unfold average_of. rewrite Qmake_Qdiv.
    replace (Z.pos (Pos.of_succ_nat (length (s0 :: rest))))
      with (Z.of_nat (length (s0 :: rest)) + 1) by lia.
    reflexivity.
Qed.

(** Witness of C6: A on duty on Monday 1 January 2024, B on the Tuesday,
    over these two days. *)
Lemma C6_witness :
  let val := Examples.alternate Examples.mon Examples.tue in
  let dates := generate_dates Examples.mon Examples.tue in
  ∃ sched metrics m,
    extract_solution val dates ["A"; "B"]%string = Returned (sched, metrics)
    ∧ metrics !! "A"%string = Some m
    ∧ num_shifts m = length (shifts_of val dates "A"%string)
    ∧ match shifts_of val dates "A"%string with
      | [] => average_spacing m = None
      | first_shift :: _ =>
          ∃ horizon_start horizon_end last_shift q,
            head dates = Some horizon_start
            ∧ last dates = Some horizon_end
            ∧ last (shifts_of val dates "A"%string) = Some last_shift
            ∧ average_spacing m = Some q
            ∧ (q == average_of
                      (total_gap horizon_start horizon_end
                         first_shift last_shift
                         (shifts_of val dates "A"%string))
                      (num_shifts m))%Q
      end.
Proof.
  apply (C6_average_spacing (Examples.alternate Examples.mon Examples.tue)
           (generate_dates Examples.mon Examples.tue)
           ["A"; "B"]%string "A"%string).
  - apply (bool_decide_unpack _). by vm_compute.
  - apply (bool_decide_unpack _). by vm_compute.
Defined.

(** ** The programme *)

Section Programme.

Lemma binary_value a v :
  binary a v → value a v = if decide (a v = Some 1) then 1 else 0.
Proof. unfold binary, value. intros [-> | ->]; by case_decide. Qed.

Lemma eval_weighted {X : Type} (a : var → option Z) (wt : X → Z)
    (f : X → var) (l : list X) :
  (∀ x, x ∈ l → binary a (f x)) →
  eval a ((λ x, (wt x, f x)) <$> l)
  = sum_Z (wt <$> filter (λ x, a (f x) = Some 1) l).
Proof.
  induction l as [|x l IH]; intros Hb; [done|].
  rewrite fmap_cons. cbn [eval foldr fst snd]. fold (eval a).
  change (foldr _ 0 ((λ x, (wt x, f x)) <$> l))
    with (eval a ((λ x, (wt x, f x)) <$> l)).
  rewrite IH by (intros y Hy; apply Hb; by right).
  rewrite binary_value by (apply Hb; left).
  rewrite filter_cons. destruct (decide (a (f x) = Some 1)).
  - rewrite fmap_cons, sum_Z_cons. lia.
  - lia.
Qed.

Lemma eval_ones {X : Type} (a : var → option Z) (f : X → var) (l : list X) :
  (∀ x, x ∈ l → binary a (f x)) →
  eval a ((λ x, (1, f x)) <$> l)
  = Z.of_nat (length (filter (λ x, a (f x) = Some 1) l)).
Proof.
  intros Hb. rewrite (eval_weighted a (λ _, 1) f l Hb).
  induction (filter (λ x, a (f x) = Some 1) l) as [|y l' IH]; [done|].
  rewrite fmap_cons, sum_Z_cons, length_cons, IH. lia.
Qed.

Lemma elem_of_intern_vars (interns : list string) (dates : list Z) i d :
  (i, d) ∈ intern_vars interns dates ↔ i ∈ interns ∧ d ∈ dates.
Proof.
  unfold intern_vars. rewrite list_elem_of_bind. split.
  - intros (i' & Hin & Hi'). apply list_elem_of_bind in Hin as (d' & Hin & Hd').
    apply list_elem_of_singleton in Hin. by simplify_eq.
  - intros [Hi Hd]. exists i. split; [|done].
    apply list_elem_of_bind. exists d. split; [|done].
    by apply list_elem_of_singleton.
Qed.

Lemma mapM_elem {X Y : Type} (f : X → outcome Y) (l : list X) (bs : list Y) :
  mapM f l = Returned bs →
  ∀ x, x ∈ l → ∃ y, f x = Returned y ∧ y ∈ bs.
Proof.
  revert bs. induction l as [|x0 l IH]; intros bs Hm x Hx.
  - by apply not_elem_of_nil in Hx.
  - cbn [mapM] in Hm. destruct (f x0) as [y0| |] eqn:Hf; try done.
    cbn [bind] in Hm. destruct (mapM f l) as [ys| |] eqn:Hl; try done.
    cbn [bind] in Hm. injection Hm as <-.
    apply elem_of_cons in Hx as [->|Hx].
    + exists y0. split; [done|left].
    + destruct (IH ys eq_refl x Hx) as (y & Hy & Hin).
      exists y. split; [done|by right].
Qed.

Lemma elem_of_spacing_constraints (dates : list Z) (ms : Z) (i : string)
    (j k : nat) d1 d2 :
  (1 ≤ k)%nat → Z.of_nat k ≤ ms →
  dates !! j = Some d1 → dates !! (j + k)%nat = Some d2 →
  mkConstraint [(1, (i, d1)); (1, (i, d2))] LpConstraintLE 1
  ∈ spacing_constraints dates ms i.
Proof.
  intros Hk1 Hk2 H1 H2. unfold spacing_constraints.
  apply list_elem_of_bind. exists j. split.
  - apply list_elem_of_bind. exists k. split.
    + rewrite decide_True by (by apply lookup_lt_Some in H2).
      rewrite H1, H2. by apply list_elem_of_singleton.
    + apply elem_of_seq. lia.
  - apply elem_of_seq. apply lookup_lt_Some in H1. lia.
Qed.

(** What a programme that was built contains. *)
Lemma build_problem_inv fuel self (interns shuffled : list string) p wd :
  build_problem fuel self interns shuffled = Returned (p, wd) →
  variables p = intern_vars interns (dates self)
  ∧ weekend_targets fuel (dates self) (min_interns_per_duty self)
      interns shuffled = Returned wd
  ∧ (∀ d, d ∈ dates self →
       coverage_constraint interns (min_interns_per_duty self) d
       ∈ constraints p)
  ∧ (∀ i, i ∈ interns →
       ∃ q, units_per_intern self !! i = Some q
            ∧ mkConstraint
                ((λ d, (get_units_for_day d, (i, d))) <$> dates self)
                LpConstraintEQ q ∈ constraints p)
  ∧ (∀ i, i ∈ interns →
       ∃ t, wd !! i = Some t
            ∧ mkConstraint
                ((λ d, (1, (i, d)))
                   <$> filter (λ d, weekday d = 5) (dates self))
                LpConstraintEQ t.1 ∈ constraints p
            ∧ mkConstraint
                ((λ d, (1, (i, d)))
                   <$> filter (λ d, weekday d = 6) (dates self))
                LpConstraintEQ t.2 ∈ constraints p)
  ∧ (∀ i, i ∈ interns →
       ∀ c, c ∈ spacing_constraints (dates self) (minimum_spacing self) i →
            c ∈ constraints p).
Proof.
  unfold build_problem. intros Hb.
  destruct (mapM (quota_constraint _ _) interns) as [quota| |] eqn:Hq;
    try done. cbn [bind] in Hb.
  destruct (weekend_targets _ _ _ _ _) as [wd'| |] eqn:Hw; try done.
  cbn [bind] in Hb.
  destruct (mapM (weekend_constraint _ _) interns) as [weekend| |] eqn:Hwe;
    try done. cbn [bind] in Hb.
  injection Hb as <- <-. cbn [variables constraints].
  split_and!; try done.
  - intros d Hd. apply elem_of_app. left.
    apply list_elem_of_fmap. by exists d.
  - intros i Hi. destruct (mapM_elem _ _ _ Hq i Hi) as (c & Hc & Hin).
    unfold quota_constraint, getitem in Hc.
    destruct (units_per_intern self !! i) as [q|] eqn:Hu; [|done].
    cbn [bind] in Hc. injection Hc as <-. exists q. split; [done|].
    apply elem_of_app. right. apply elem_of_app. by left.
  - intros i Hi. destruct (mapM_elem _ _ _ Hwe i Hi) as (cs & Hc & Hin).
    unfold weekend_constraint, getitem in Hc.
    destruct (wd' !! i) as [t|] eqn:Ht; [|done].
    cbn [bind] in Hc. injection Hc as <-. exists t. split; [done|].
    split.
    + apply elem_of_app. right. apply elem_of_app. right.
      apply elem_of_app. left. apply list_elem_of_In, in_concat.
      eexists. split; [apply list_elem_of_In, Hin|]. apply list_elem_of_In. left.
    + apply elem_of_app. right. apply elem_of_app. right.
      apply elem_of_app. left. apply list_elem_of_In, in_concat.
      eexists. split; [apply list_elem_of_In, Hin|].
      apply list_elem_of_In. right. left.
  - intros i Hi c Hc. apply elem_of_app. right. apply elem_of_app. right.
    apply elem_of_app. right. apply list_elem_of_bind. by exists i.
Qed.

End Programme.

(** ** From a solution of the programme to the invariants *)

Section Invariants.

Lemma filter_ext_elem {X : Type} (P Q : X → Prop)
    `{∀ x, Decision (P x)} `{∀ x, Decision (Q x)} (l : list X) :
  (∀ x, x ∈ l → P x ↔ Q x) → filter P l = filter Q l.
Proof.
  induction l as [|x l IH]; intros Hext; [done|].
  rewrite !filter_cons.
  rewrite IH by (intros y Hy; apply Hext; by right).
  pose proof (Hext x (list_elem_of_here x l)) as Hx.
  destruct (decide (P x)), (decide (Q x)); tauto || done.
Qed.

Lemma filter_swap {X : Type} (P Q : X → Prop)
    `{∀ x, Decision (P x)} `{∀ x, Decision (Q x)} (l : list X) :
  filter P (filter Q l) = filter Q (filter P l).
Proof.
  rewrite !list_filter_filter. apply list_filter_iff. intros x. tauto.
Qed.

Variable val : var → option Z.
Variable sched : gmap Z (list string).
Variable dates : list Z.
Variable interns : list string.

Hypothesis sched_dates :
  ∀ d, d ∈ dates → sched !! d = Some (staff_of val interns d).

Lemma on_duty_chosen i d :
  i ∈ interns → d ∈ dates → on_duty sched i d ↔ val (i, d) = Some 1.
Proof.
  intros Hi Hd. unfold on_duty. rewrite (sched_dates d Hd). simpl.
  unfold staff_of. rewrite list_elem_of_filter. tauto.
Qed.

Lemma assigned_dates_shifts i :
  i ∈ interns → assigned_dates sched dates i = shifts_of val dates i.
Proof.
  intros Hi. unfold assigned_dates, shifts_of.
  apply filter_ext_elem. intros d Hd. by apply on_duty_chosen.
Qed.

Lemma invariants_of_solution fuel self (shuffled : list string) p wd :
  dates = Scheduler.dates self →
  NoDup interns →
  build_problem fuel self interns shuffled = Returned (p, wd) →
  satisfies val p →
  invariants sched dates interns (units_per_intern self) wd
    (min_interns_per_duty self) (minimum_spacing self).
Proof.
  intros Hdates Hnd Hb [Hbin Hholds].
  destruct (build_problem_inv _ _ _ _ _ _ Hb)
    as (Hvars & Hwd & Hcov & Hquota & Hweekend & Hspacing).
  rewrite <- Hdates in *.
  assert (∀ i d, i ∈ interns → d ∈ dates → binary val (i, d)) as Hb01.
  { intros i d Hi Hd. rewrite Forall_forall in Hbin. apply Hbin.
    rewrite Hvars. by apply elem_of_intern_vars. }
  rewrite Forall_forall in Hholds.
  split.
  - intros d Hd. exists (staff_of val interns d).
    split; [by apply sched_dates|]. split; [by apply NoDup_filter|].
    specialize (Hholds _ (Hcov d Hd)).
    unfold holds, coverage_constraint in Hholds.
    cbn [csense terms rhs] in Hholds.
    rewrite (eval_ones val (λ i, (i, d)) interns) in Hholds
      by (intros i Hi; by apply Hb01).
    exact Hholds.
  - intros i Hi. split_and!.
    + destruct (Hquota i Hi) as (q & Hq & Hc).
      specialize (Hholds _ Hc). unfold holds in Hholds.
      cbn [csense terms rhs] in Hholds.
      rewrite (eval_weighted val get_units_for_day (λ d, (i, d)) dates)
        in Hholds by (intros d Hd; by apply Hb01).
      unfold quota_ok. rewrite assigned_dates_shifts by done.
      rewrite Hq. f_equal. by rewrite <- Hholds.
    + destruct (Hweekend i Hi) as (t & Ht & Hc5 & Hc6).
      pose proof (Hholds _ Hc5) as H5. pose proof (Hholds _ Hc6) as H6.
      unfold holds in H5, H6. cbn [csense terms rhs] in H5, H6.
      rewrite (eval_ones val (λ d, (i, d))) in H5, H6
        by (intros d [_ Hd]%list_elem_of_filter; by apply Hb01).
      unfold weekend_ok. rewrite assigned_dates_shifts by done.
      rewrite Ht. unfold count_weekday, shifts_of.
      rewrite (filter_swap (λ d, weekday d = 5)).
      rewrite (filter_swap (λ d, weekday d = 6)).
      rewrite H5, H6. by destruct t.
    + intros j k d1 d2 Hk1 Hk2 H1 H2 [Hd1 Hd2].
      apply on_duty_chosen in Hd1;
        [|done|by apply list_elem_of_lookup_2 in H1].
      apply on_duty_chosen in Hd2;
        [|done|by apply list_elem_of_lookup_2 in H2].
      pose proof (elem_of_spacing_constraints dates (minimum_spacing self)
                    i j k d1 d2 Hk1 Hk2 H1 H2) as Hc.
      specialize (Hholds _ (Hspacing i Hi _ Hc)).
      unfold holds in Hholds.
      cbn [csense terms rhs eval foldr fst snd] in Hholds.
      unfold value in Hholds. rewrite Hd1, Hd2 in Hholds. simpl in Hholds.
      lia.
Qed.

End Invariants.

(** ** [solve] and the solver *)

Section Solved.

Variable solver : LpProblem → LpSolution.

(** Once the check has passed and the programme is built, [solve] returns,
    whatever the solver left behind. *)
Lemma solve_returns fuel self randomize w p wd :
  verify_units self (calculate_total_required_units self) = Returned tt →
  NoDup (dates self) →
  programme_of fuel self randomize w = Returned (p, wd) →
  ∃ s' sched metrics,
    solve solver fuel self randomize w
    = (Returned s', (shuffle_interns self randomize w).2)
    ∧ schedule s' = Some sched
    ∧ intern_metrics s' = Some metrics
    ∧ interns s' = interns self
    ∧ extract_solution (varValue (solver p)) (dates self)
        (interns_after self randomize w) = Returned (sched, metrics).
Proof.
  intros Hv Hnd Hp. unfold solve. rewrite Hv. unfold solve_checked.
  unfold programme_of in Hp. unfold interns_after.
  destruct (shuffle_interns self randomize w) as [sh w'] eqn:Hsh.
  cbn [fst snd] in *. unfold solve_model. rewrite Hp. cbn [bind fst].
  destruct (extract_solution_spec (varValue (solver p)) (dates self) Hnd
              (read_list w' (interns self)))
    as (sched & metrics & He & _).
  rewrite He. cbn [bind fst snd].
  eexists _, sched, metrics. split; [reflexivity|]. by split_and!.
Qed.

End Solved.

(** C2, as the code has it: [prob.status] is never read.  Once the check
    has passed and the programme is built, [solve] returns normally for
    every solver, also when the programme admits no assignment, and the
    schedule it leaves lists on each date the persons whose variable the
    solver left at 1. *)
Theorem C2_solve_returns_without_reading_status
    solver fuel self randomize w p wd :
  verify_units self (calculate_total_required_units self) = Returned tt →
  constructed self →
  programme_of fuel self randomize w = Returned (p, wd) →
  ∃ s' sched,
    solve solver fuel self randomize w
    = (Returned s', (shuffle_interns self randomize w).2)
    ∧ schedule s' = Some sched
    ∧ (∀ d, d ∈ dates self →
         sched !! d
         = Some (staff_of (varValue (solver p))
                   (interns_after self randomize w) d))
    ∧ (∀ d, d ∉ dates self → sched !! d = None).
Proof.
  intros Hv Hc Hp.
  assert (NoDup (dates self)) as Hnd.
  { rewrite Hc. apply NoDup_generate_dates. }
  destruct (solve_returns solver fuel self randomize w p wd Hv Hnd Hp)
    as (s' & sched & metrics & Hs & Hsched & _ & _ & He).
  exists s', sched. split; [done|]. split; [done|].
  destruct (extract_solution_spec (varValue (solver p)) (dates self) Hnd
              (interns_after self randomize w))
    as (sched' & metrics' & He' & Hd1 & Hd2 & _).
  rewrite He in He'. injection He' as <- <-. by split.
Qed.

(** C1, as the code has it: when the values the solver left satisfy the
    programme that [solve] built for a list of distinct persons, [solve]
    returns and its schedule satisfies the four invariants: on every date
    at least [min_interns_per_duty] distinct persons, for every person the
    unit weights of the assigned dates sum to the quota, the Saturday and
    Sunday counts are the pre-distributed targets, and no two assigned
    dates lie [minimum_spacing] positions or fewer apart. *)
Theorem C1_invariants_of_a_solution
    solver fuel self randomize w p wd :
  verify_units self (calculate_total_required_units self) = Returned tt →
  constructed self →
  NoDup (read_list w (interns self)) →
  programme_of fuel self randomize w = Returned (p, wd) →
  satisfies (varValue (solver p)) p →
  ∃ s' sched,
    solve solver fuel self randomize w
    = (Returned s', (shuffle_interns self randomize w).2)
    ∧ schedule s' = Some sched
    ∧ invariants sched (dates self) (interns_after self randomize w)
        (units_per_intern self) wd
        (min_interns_per_duty self) (minimum_spacing self).
Proof.
  intros Hv Hc Hnd Hp Hsat.
  assert (NoDup (dates self)) as Hdates.
  { rewrite Hc. apply NoDup_generate_dates. }
  destruct (solve_returns solver fuel self randomize w p wd Hv Hdates Hp)
    as (s' & sched & metrics & Hs & Hsched & _ & _ & He).
  exists s', sched. split; [done|]. split; [done|].
  destruct (extract_solution_spec (varValue (solver p)) (dates self) Hdates
              (interns_after self randomize w))
    as (sched' & metrics' & He' & Hd1 & _).
  rewrite He in He'. injection He' as <- <-.
  apply (invariants_of_solution (varValue (solver p)) sched (dates self)
           (interns_after self randomize w) Hd1 fuel self
           (shuffle_interns self randomize w).1 p wd); try done.
  unfold interns_after. by rewrite shuffle_interns_read.
Qed.

(** Witness of C2: one person who owes two units over a single Monday; the
    quota constraint cannot be met, and [solve] returns all the same. *)
Lemma C2_witness :
  let w := Examples.world_of ["A"]%string [] in
  ∃ p wd,
    programme_of 1 Examples.overbooked true w = Returned (p, wd)
    ∧ ∃ s' sched,
        solve Examples.null_solver 1 Examples.overbooked true w
        = (Returned s', (shuffle_interns Examples.overbooked true w).2)
        ∧ schedule s' = Some sched
        ∧ (∀ d, d ∈ dates Examples.overbooked →
             sched !! d
             = Some (staff_of (varValue (Examples.null_solver p))
                       (interns_after Examples.overbooked true w) d))
        ∧ (∀ d, d ∉ dates Examples.overbooked → sched !! d = None).
Proof.
  intros w. eexists _, _. split; [vm_compute; reflexivity|].
  eapply (C2_solve_returns_without_reading_status Examples.null_solver 1
           Examples.overbooked true w).
  - vm_compute. reflexivity.
  - reflexivity.
  - vm_compute. reflexivity.
Defined.

(** C2 fails on the code: the programme of the overbooked person admits no
    assignment, and for every solver [solve] returns a schedule, with
    nobody or with A on the Monday. *)
Lemma C2_infeasible_yet_returned :
  let w := Examples.world_of ["A"]%string [] in
  ∃ p wd,
    programme_of 1 Examples.overbooked true w = Returned (p, wd)
    ∧ infeasible p
    ∧ ∀ solver, ∃ s' sched,
        solve solver 1 Examples.overbooked true w
        = (Returned s', (shuffle_interns Examples.overbooked true w).2)
        ∧ schedule s' = Some sched
        ∧ (sched !! Examples.mon = Some []
           ∨ sched !! Examples.mon = Some ["A"%string]).
Proof.
  intros w. eexists _, _. split; [vm_compute; reflexivity|]. split.
  - intros a [Hb Hc]. cbn [variables constraints] in Hb, Hc.
    apply Forall_cons in Hb as [Hb _].
    apply Forall_cons in Hc as [_ Hc]. apply Forall_cons in Hc as [Hc _].
    unfold holds in Hc. cbn [csense terms rhs eval foldr fst snd] in Hc.
    unfold value in Hc. destruct Hb as [E|E]; rewrite E in Hc; simpl in Hc; lia.
  - intros solver.
    edestruct (solve_returns solver 1 Examples.overbooked true w)
      as (s' & sched & metrics & Hs & Hsched & _ & _ & He).
    { vm_compute. reflexivity. }
    { apply NoDup_generate_dates. }
    { vm_compute. reflexivity. }
    exists s', sched. split; [done|]. split; [done|].
    edestruct (extract_solution_spec) as (sched' & metrics' & He' & Hd1 & _);
      [|rewrite He in He'; injection He' as <- <-].
    { apply (NoDup_generate_dates Examples.mon Examples.mon). }
    rewrite (Hd1 Examples.mon) by (vm_compute; left).
    replace (interns_after Examples.overbooked true w) with ["A"%string]
      by (by vm_compute).
    unfold staff_of. rewrite filter_cons, filter_nil.
    destruct (decide _); [by right|by left].
Qed.

(** C1 fails on the code: the overbooked person passes the check, the
    programme is built, and for every solver [solve] returns a schedule
    that misses the quota: A owes 2 units and the horizon holds 1. *)
Lemma C1_schedule_returned_off_quota :
  let w := Examples.world_of ["A"]%string [] in
  ∃ p wd,
    programme_of 1 Examples.overbooked true w = Returned (p, wd)
    ∧ verify_units Examples.overbooked
        (calculate_total_required_units Examples.overbooked) = Returned tt
    ∧ interns_after Examples.overbooked true w = ["A"%string]
    ∧ ∀ solver, ∃ s' sched,
        solve solver 1 Examples.overbooked true w
        = (Returned s', (shuffle_interns Examples.overbooked true w).2)
        ∧ schedule s' = Some sched
        ∧ ¬ invariants sched (dates Examples.overbooked)
              (interns_after Examples.overbooked true w)
              (units_per_intern Examples.overbooked) wd
              (min_interns_per_duty Examples.overbooked)
              (minimum_spacing Examples.overbooked).
Proof.
  intros w. eexists _, _. split; [vm_compute; reflexivity|].
  split; [vm_compute; reflexivity|]. split; [vm_compute; reflexivity|].
  intros solver.
  edestruct (solve_returns solver 1 Examples.overbooked true w)
    as (s' & sched & metrics & Hs & Hsched & _ & _ & He).
  { vm_compute. reflexivity. }
  { apply NoDup_generate_dates. }
  { vm_compute. reflexivity. }
  exists s', sched. split; [done|]. split; [done|].
  intros [_ Hi].
  replace (interns_after Examples.overbooked true w) with ["A"%string] in Hi
    by (by vm_compute).
  destruct (Hi "A"%string) as [Hq _]; [left|].
  unfold quota_ok, assigned_dates in Hq.
  replace (dates Examples.overbooked) with [Examples.mon] in Hq
    by (by vm_compute).
  replace (units_per_intern Examples.overbooked !! "A"%string)
    with (Some 2) in Hq by (by vm_compute).
  rewrite filter_cons, filter_nil in Hq.
  destruct (decide _); vm_compute in Hq; congruence.
Qed.

(** Witness of C1: A and B owe one unit each over a Monday and a Tuesday;
    the solver puts A on the Monday and B on the Tuesday. *)
Lemma C1_witness :
  let w := Examples.world_of ["A"; "B"]%string [1; 0]%nat in
  let solver := Examples.alternating_solver Examples.mon Examples.tue in
  ∃ p wd,
    programme_of 1 Examples.pair_weekdays true w = Returned (p, wd)
    ∧ satisfies (varValue (solver p)) p
    ∧ ∃ s' sched,
        solve solver 1 Examples.pair_weekdays true w
        = (Returned s', (shuffle_interns Examples.pair_weekdays true w).2)
        ∧ schedule s' = Some sched
        ∧ invariants sched (dates Examples.pair_weekdays)
            (interns_after Examples.pair_weekdays true w)
            (units_per_intern Examples.pair_weekdays) wd
            (min_interns_per_duty Examples.pair_weekdays)
            (minimum_spacing Examples.pair_weekdays).
Proof.
  intros w solver. eexists _, _. split; [vm_compute; reflexivity|].
  match goal with |- ?S ∧ _ => assert S as Hsat end.
  { split; cbn [variables constraints].
    - repeat apply Forall_cons_2; try apply Forall_nil; vm_compute; auto.
    - repeat apply Forall_cons_2; try apply Forall_nil; by vm_compute. }
  split; [exact Hsat|].
  eapply (C1_invariants_of_a_solution solver 1 Examples.pair_weekdays true w).
  - vm_compute. reflexivity.
  - reflexivity.
  - apply (bool_decide_unpack _). by vm_compute.
  - vm_compute. reflexivity.
  - exact Hsat.
Defined.

(** The programme is built for every valid input: a non-empty list of
    distinct persons, each with a quota, and at least one unit of fuel. *)
Lemma mapM_returns {X Y : Type} (f : X → outcome Y) (l : list X) :
  (∀ x, x ∈ l → ∃ y, f x = Returned y) → ∃ ys, mapM f l = Returned ys.
Proof.
  induction l as [|x l IH]; intros Hf; [by eexists|].
  destruct (Hf x) as [y Hy]; [left|].
  destruct IH as [ys Hys]; [intros z Hz; apply Hf; by right|].
  exists (y :: ys). cbn [mapM]. by rewrite Hy, Hys.
Qed.

Lemma build_problem_returns fuel self (interns shuffled : list string) :
  NoDup interns → interns ≠ [] → shuffled ≡ₚ interns →
  (∀ i, i ∈ interns → is_Some (units_per_intern self !! i)) →
  ∃ p wd, build_problem (S fuel) self interns shuffled = Returned (p, wd).
Proof.
  intros Hnd Hne Hp Hunits. unfold build_problem.
  destruct (mapM_returns (quota_constraint (units_per_intern self) (dates self))
              interns) as [quota Hq].
  { intros i Hi. destruct (Hunits i Hi) as [q Hqi].
    unfold quota_constraint, getitem. rewrite Hqi. by eexists. }
  rewrite Hq. cbn [bind].
  destruct (distribute_weekends_returns fuel (dates self)
              (min_interns_per_duty self) interns shuffled Hnd Hne Hp)
    as (wd & rs & ru & Hd & _ & Hkeys).
  unfold weekend_targets. rewrite Hd. cbn [bind fst snd].
  destruct (mapM_returns (weekend_constraint wd (dates self)) interns)
    as [weekend Hw].
  { intros i Hi. destruct (proj2 (Hkeys i) Hi) as [t Ht].
    unfold weekend_constraint, getitem. rewrite Ht. by eexists. }
  rewrite Hw. cbn [bind]. by eexists _, _.
Qed.

Lemma programme_of_returns fuel self randomize w :
  NoDup (read_list w (interns self)) → read_list w (interns self) ≠ [] →
  (∀ i, i ∈ read_list w (interns self) →
        is_Some (units_per_intern self !! i)) →
  ∃ p wd, programme_of (S fuel) self randomize w = Returned (p, wd).
Proof.
  intros Hnd Hne Hunits. unfold programme_of.
  pose proof (shuffle_interns_read self randomize w) as Hr.
  pose proof (shuffle_interns_shuffled self randomize w) as Hs.
  apply build_problem_returns.
  - by rewrite Hr.
  - intros E. rewrite E in Hr. symmetry in Hr.
    by apply Permutation_nil_r in Hr.
  - by rewrite Hs, Hr.
  - intros i Hi. apply Hunits. by rewrite <- Hr.
Qed.

(** ** Inputs outside the data model

    The data model gives every person one identifier and one quota.  The
    constructor checks neither, and the two lemmas below record what the
    code does when a caller breaks them. *)

(** A quota table with an entry for somebody who is not on an empty list
    passes the check, and the division by the number of persons raises. *)
Lemma stray_quota_reaches_division :
  (solve Examples.null_solver 1
     (__init__ Examples.mon Examples.mon Examples.roster
        {[ "X"%string := 1 ]} 1 1)
     true (Examples.world_of [] [])).1
  = Raised ZeroDivisionError.
Proof. by vm_compute. Qed.

(** A name listed twice collects two extra slots in one pass. *)
Lemma repeated_name_collects_twice :
  ∃ wd,
    weekend_targets 1 (dates Examples.trio_weekend) 2
      ["A"; "A"; "B"]%string ["A"; "A"; "B"]%string = Returned wd
    ∧ wd !! "A"%string = Some (2, 0)
    ∧ wd !! "B"%string = Some (0, 1).
Proof. eexists. split; [vm_compute; reflexivity|]. split; by vm_compute. Qed.

(** * Further properties of the code *)

(** ** Whole weeks *)

Section Weeks.

Lemma weekday_shift d j : weekday (d + j) = (weekday d + j) mod 7.
Proof.
  unfold weekday. rewrite Zplus_mod_idemp_l. f_equal. lia.
Qed.

Lemma generate_dates_days s (n : nat) :
  generate_dates s (s + Z.of_nat n - 1)
  = (λ k : nat, s + Z.of_nat k) <$> seq 0 n.
Proof.
  unfold generate_dates. do 2 f_equal. lia.
Qed.

Lemma generate_dates_split s (a b : nat) :
  generate_dates s (s + Z.of_nat (a + b) - 1)
  = generate_dates s (s + Z.of_nat a - 1)
    ++ generate_dates (s + Z.of_nat a) (s + Z.of_nat a + Z.of_nat b - 1).
Proof.
  rewrite !generate_dates_days. rewrite seq_app, fmap_app. f_equal.
  cbn [Nat.add].
  replace (seq a b) with (Nat.add a <$> seq 0 b)
    by (rewrite fmap_add_seq; f_equal; lia).
  rewrite <- list_fmap_compose.
  apply list_fmap_ext. intros _ k _. simpl. lia.
Qed.

Lemma count_weekday_app n l1 l2 :
  count_weekday n (l1 ++ l2) = count_weekday n l1 + count_weekday n l2.
Proof.
  unfold count_weekday. rewrite filter_app, length_app. lia.
Qed.

Lemma count_weekdays_app l1 l2 :
  count_weekdays (l1 ++ l2) = count_weekdays l1 + count_weekdays l2.
Proof.
  unfold count_weekdays. rewrite filter_app, length_app. lia.
Qed.

(** Seven days in a row: 10 units, one day of each name. *)
Lemma one_week s :
  let week := generate_dates s (s + Z.of_nat 7 - 1) in
  sum_Z (get_units_for_day <$> week) = 10
  ∧ count_weekdays week = 5
  ∧ ∀ n, 0 ≤ n < 7 → count_weekday n week = 1.
Proof.
  intros week. subst week. rewrite generate_dates_days.
  cbn [seq fmap list_fmap].
  unfold sum_Z, count_weekdays, count_weekday, get_units_for_day.
  cbn [fmap list_fmap foldr].
  pose proof (weekday_range s) as Hr.
  assert (weekday s = 0 ∨ weekday s = 1 ∨ weekday s = 2 ∨ weekday s = 3
          ∨ weekday s = 4 ∨ weekday s = 5 ∨ weekday s = 6) as Hc by lia.
  split_and!.
  - rewrite !weekday_shift.
    destruct Hc as [E|[E|[E|[E|[E|[E|E]]]]]]; rewrite E; reflexivity.
  - rewrite !filter_cons, filter_nil, !weekday_shift.
    destruct Hc as [E|[E|[E|[E|[E|[E|E]]]]]]; rewrite E; reflexivity.
  - intros n Hn.
    assert (n = 0 ∨ n = 1 ∨ n = 2 ∨ n = 3 ∨ n = 4 ∨ n = 5 ∨ n = 6)
      as Hn' by lia.
    rewrite !filter_cons, filter_nil, !weekday_shift.
    destruct Hc as [E|[E|[E|[E|[E|[E|E]]]]]]; rewrite E;
      destruct Hn' as [->|[->|[->|[->|[->|[->| ->]]]]]]; reflexivity.
Qed.

Lemma whole_weeks s (k : nat) :
  let ds := generate_dates s (s + Z.of_nat (7 * k) - 1) in
  sum_Z (get_units_for_day <$> ds) = 10 * Z.of_nat k
  ∧ count_weekdays ds = 5 * Z.of_nat k
  ∧ ∀ n, 0 ≤ n < 7 → count_weekday n ds = Z.of_nat k.
Proof.
  revert s. induction k as [|k IH]; intros s.
  - simpl. rewrite generate_dates_days. by split_and!.
  - replace (7 * S k)%nat with (7 + 7 * k)%nat by lia.
    cbv zeta. rewrite generate_dates_split.
    destruct (one_week s) as (H1 & H2 & H3).
    destruct (IH (s + Z.of_nat 7)) as (I1 & I2 & I3).
    cbv zeta in *.
    rewrite fmap_app, sum_Z_app, count_weekdays_app.
    split_and!; [lia|lia|].
    intros n Hn. rewrite count_weekday_app, H3, I3 by done. lia.
Qed.

End Weeks.

(** X1: over a horizon of [k] whole weeks, whatever the day it starts on,
    the required total is 10 units a week, and the horizon holds [k]
    Saturdays, [k] Sundays and [5 k] weekdays. *)
Theorem whole_weeks_totals s (k : nat) l units M ms :
  let self := __init__ s (s + 7 * Z.of_nat k - 1) l units M ms in
  calculate_total_required_units self = 10 * Z.of_nat k
  ∧ count_weekday 5 (dates self) = Z.of_nat k
  ∧ count_weekday 6 (dates self) = Z.of_nat k
  ∧ count_weekdays (dates self) = 5 * Z.of_nat k.
Proof.
  cbv zeta. rewrite total_required_units_sum. cbn [dates __init__].
  replace (s + 7 * Z.of_nat k - 1) with (s + Z.of_nat (7 * k) - 1) by lia.
  destruct (whole_weeks s k) as (H1 & H2 & H3). cbv zeta in *.
  split_and!; try done; apply H3; lia.
Qed.

(** ** What the metrics say *)

Section MetricsFacts.

Lemma counts_partition (l : list Z) :
  count_weekdays l + count_weekday 5 l + count_weekday 6 l
  = Z.of_nat (length l)
  ∧ sum_Z (get_units_for_day <$> l)
    = count_weekdays l + 2 * count_weekday 5 l + 3 * count_weekday 6 l.
Proof.
  induction l as [|d l [IH1 IH2]]; [done|].
  rewrite count_weekdays_cons, !count_weekday_cons, fmap_cons, sum_Z_cons,
    length_cons.
  set (rest := sum_Z (get_units_for_day <$> l)) in *.
  unfold get_units_for_day. pose proof (weekday_range d).
  destruct (weekday d =? 5) eqn:E5; [apply Z.eqb_eq in E5|apply Z.eqb_neq in E5];
    destruct (weekday d =? 6) eqn:E6;
    [apply Z.eqb_eq in E6|apply Z.eqb_neq in E6
    |apply Z.eqb_eq in E6|apply Z.eqb_neq in E6];
    repeat case_decide; lia.
Qed.

Lemma consecutive_gaps_telescope (l : list Z) a b :
  head l = Some a → last l = Some b → consecutive_gaps l = b - a.
Proof.
  revert a. induction l as [|x l IH]; intros a Ha Hb; [done|].
  injection Ha as ->. destruct l as [|y l].
  - injection Hb as ->. simpl. lia.
  - change (consecutive_gaps (a :: y :: l))
      with ((y - a) + consecutive_gaps (y :: l)).
    rewrite (IH y eq_refl Hb). lia.
Qed.

End MetricsFacts.

(** X2: the metrics record of every person is consistent with itself,
    whatever the solver returned: the weekday, Saturday and Sunday counts
    add up to the number of shifts, and the units used are the weekdays
    plus twice the Saturdays plus three times the Sundays. *)
Theorem metrics_add_up
    (val : var → option Z) (dates : list Z) (interns : list string)
    (i : string) :
  NoDup dates → i ∈ interns →
  ∃ sched metrics m,
    extract_solution val dates interns = Returned (sched, metrics)
    ∧ metrics !! i = Some m
    ∧ weekdays m + saturdays m + sundays m = Z.of_nat (num_shifts m)
    ∧ total_units_used m = weekdays m + 2 * saturdays m + 3 * sundays m.
Proof.
  intros Hnd Hi.
  destruct (extract_solution_spec val dates Hnd interns)
    as (sched & metrics & Hr & _ & _ & Hm & _).
  destruct (Hm i Hi) as (m & Hmi & Hu & Hn & Hw & Hs & Hsu & _).
  exists sched, metrics, m. split; [done|]. split; [done|].
  destruct (counts_partition (shifts_of val dates i)) as [H1 H2].
  rewrite Hu, Hn, Hw, Hs, Hsu. by split.
Qed.

Lemma metrics_add_up_witness :
  let val := Examples.alternate Examples.sat Examples.sun in
  let dates := generate_dates Examples.sat Examples.sun in
  ∃ sched metrics m,
    extract_solution val dates ["A"; "B"]%string = Returned (sched, metrics)
    ∧ metrics !! "B"%string = Some m
    ∧ weekdays m + saturdays m + sundays m = Z.of_nat (num_shifts m)
    ∧ total_units_used m = weekdays m + 2 * saturdays m + 3 * sundays m.
Proof.
  apply (metrics_add_up (Examples.alternate Examples.sat Examples.sun)
           (generate_dates Examples.sat Examples.sun)
           ["A"; "B"]%string "B"%string).
  - apply (bool_decide_unpack _). by vm_compute.
  - apply (bool_decide_unpack _). by vm_compute.
Defined.

(** X3: the gaps telescope.  For a person with at least one shift the
    total spacing is the distance from the first to the last date of the
    horizon, wherever the shifts lie, so [average_spacing] is that distance
    over the number of shifts plus one: it depends on how many shifts the
    person has and not on how they are spread. *)
Theorem average_spacing_only_counts_shifts
    (val : var → option Z) (dates : list Z) (interns : list string)
    (i : string) horizon_start horizon_end :
  NoDup dates → i ∈ interns →
  head dates = Some horizon_start → last dates = Some horizon_end →
  shifts_of val dates i ≠ [] →
  ∃ sched metrics m q,
    extract_solution val dates interns = Returned (sched, metrics)
    ∧ metrics !! i = Some m
    ∧ average_spacing m = Some q
    ∧ (q == average_of (horizon_end - horizon_start) (num_shifts m))%Q.
Proof.
  intros Hnd Hi Hd0 Hdl Hne.
  destruct (extract_solution_spec val dates Hnd interns)
    as (sched & metrics & Hr & _ & _ & Hm & _).
  destruct (Hm i Hi) as (m & Hmi & _ & Hn & _ & _ & _ & Ha).
  destruct (shifts_of val dates i) as [|s0 rest] eqn:E; [done|].
  destruct (last (s0 :: rest)) as [sl|] eqn:Hsl;
    [|by apply last_None in Hsl].
  rewrite (compute_average_spacing_gaps dates (s0 :: rest)
             horizon_start horizon_end s0 sl) in Ha by done.
  assert (average_spacing m
          = Some (Qmake (total_gap horizon_start horizon_end s0 sl (s0 :: rest))
                        (Pos.of_succ_nat (length (s0 :: rest))))) as Hq
    by (by injection Ha).
  exists sched, metrics, m. eexists. split_and!; try done.
  rewrite Hn. unfold average_of, total_gap.
  rewrite (consecutive_gaps_telescope (s0 :: rest) s0 sl) by done.
  rewrite Qmake_Qdiv.
  replace (Z.pos (Pos.of_succ_nat (length (s0 :: rest))))
    with (Z.of_nat (length (s0 :: rest)) + 1) by lia.
  replace (s0 - horizon_start + (sl - s0) + (horizon_end - sl))
    with (horizon_end - horizon_start) by lia.
  reflexivity.
Qed.

Lemma average_spacing_only_counts_shifts_witness :
  let val := Examples.alternate Examples.mon Examples.tue in
  let dates := generate_dates Examples.mon Examples.sun in
  ∃ sched metrics m q,
    extract_solution val dates ["A"; "B"]%string = Returned (sched, metrics)
    ∧ metrics !! "A"%string = Some m
    ∧ average_spacing m = Some q
    ∧ (q == average_of (Examples.sun - Examples.mon) (num_shifts m))%Q.
Proof.
  apply (average_spacing_only_counts_shifts
           (Examples.alternate Examples.mon Examples.tue)
           (generate_dates Examples.mon Examples.sun)
           ["A"; "B"]%string "A"%string Examples.mon Examples.sun).
  - apply (bool_decide_unpack _). by vm_compute.
  - apply (bool_decide_unpack _). by vm_compute.
  - reflexivity.
  - reflexivity.
  - by vm_compute.
Defined.

(** ** Sums over tables and double counting *)

Section Sums.

Context {V : Type}.
Variable f : V → Z.

Lemma map_fold_sum_delete (m : gmap string V) (i : string) (v : V) :
  m !! i = Some v →
  map_fold (λ _ x acc, acc + f x) 0 m
  = map_fold (λ _ x acc, acc + f x) 0 (delete i m) + f v.
Proof.
  intros Hi.
  rewrite (map_fold_delete_L (λ _ x acc, acc + f x) 0 i v m); [done| |done].
  intros. lia.
Qed.

Lemma map_fold_sum_insert (m : gmap string V) (i : string) (v v' : V) :
  m !! i = Some v →
  map_fold (λ _ x acc, acc + f x) 0 (<[i := v']> m)
  = map_fold (λ _ x acc, acc + f x) 0 m - f v + f v'.
Proof.
  intros Hi. rewrite (map_fold_sum_delete m i v Hi).
  rewrite <- (insert_delete_eq m i v').
  rewrite map_fold_insert_L; [lia| |apply lookup_delete_eq].
  intros. lia.
Qed.

(** The sum over a table is the sum over any list of its keys without
    repetition. *)
Lemma map_fold_sum_list (l : list string) :
  ∀ m : gmap string V,
    NoDup l → (∀ k, is_Some (m !! k) ↔ k ∈ l) →
    map_fold (λ _ x acc, acc + f x) 0 m
    = sum_Z ((λ i, from_option f 0 (m !! i)) <$> l).
Proof.
  induction l as [|i l IH]; intros m Hnd Hkeys.
  - assert (m = ∅) as ->.
    { apply map_empty. intros k. destruct (m !! k) eqn:E; [|done].
      exfalso. eapply not_elem_of_nil, Hkeys. by rewrite E. }
    by rewrite map_fold_empty.
  - apply NoDup_cons in Hnd as [Hi Hnd].
    destruct (proj2 (Hkeys i)) as [v Hv]; [left|].
    rewrite (map_fold_sum_delete m i v Hv).
    rewrite (IH (delete i m) Hnd).
    + rewrite fmap_cons, sum_Z_cons, Hv. simpl.
      replace ((λ k, from_option f 0 (delete i m !! k)) <$> l)
        with ((λ k, from_option f 0 (m !! k)) <$> l); [lia|].
      apply list_fmap_ext. intros j k Hk.
      apply list_elem_of_lookup_2 in Hk.
      rewrite lookup_delete_ne; [done|]. by intros ->.
    + intros k. destruct (decide (i = k)) as [<-|Hne].
      * rewrite lookup_delete_eq. split; [by intros []|done].
      * rewrite lookup_delete_ne by done. rewrite Hkeys.
        split; [by intros [?|?]%elem_of_cons|by right].
Qed.

End Sums.

Lemma sum_Z_const {X : Type} (c : Z) (l : list X) :
  sum_Z ((λ _, c) <$> l) = Z.of_nat (length l) * c.
Proof.
  induction l as [|x l IH]; [done|].
  rewrite fmap_cons, sum_Z_cons, length_cons, IH. lia.
Qed.

Lemma sum_Z_le {X : Type} (g h : X → Z) (l : list X) :
  (∀ x, x ∈ l → g x ≤ h x) → sum_Z (g <$> l) ≤ sum_Z (h <$> l).
Proof.
  induction l as [|x l IH]; intros Hle; [done|].
  rewrite !fmap_cons, !sum_Z_cons.
  pose proof (Hle x (list_elem_of_here x l)).
  assert (sum_Z (g <$> l) ≤ sum_Z (h <$> l))
    by (apply IH; intros y Hy; apply Hle; by right).
  lia.
Qed.

Lemma sum_Z_ext {X : Type} (g h : X → Z) (l : list X) :
  (∀ x, x ∈ l → g x = h x) → sum_Z (g <$> l) = sum_Z (h <$> l).
Proof.
  intros Heq. f_equal. apply list_fmap_ext. intros j x Hx.
  apply Heq. by apply list_elem_of_lookup_2 in Hx.
Qed.

(** Counting the chosen pairs by rows or by columns. *)
Lemma double_count {I D : Type} (P : I → D → Prop)
    `{∀ i d, Decision (P i d)} (wt : D → Z) (rows : list I) (cols : list D) :
  sum_Z ((λ i, sum_Z (wt <$> filter (P i) cols)) <$> rows)
  = sum_Z ((λ d, wt d * Z.of_nat (length (filter (λ i, P i d) rows)))
             <$> cols).
Proof.
  induction cols as [|d cols IH].
  - rewrite (sum_Z_ext _ (λ _, 0) rows) by done.
    rewrite (sum_Z_const 0 rows). simpl. lia.
  - rewrite fmap_cons, sum_Z_cons, <- IH. clear IH.
    induction rows as [|i rows IH]; [simpl; lia|].
    rewrite !fmap_cons, !sum_Z_cons, !filter_cons, IH.
    destruct (decide (P i d)).
    + rewrite fmap_cons, sum_Z_cons, length_cons. lia.
    + lia.
Qed.

(** ** What the pre-distribution hands out and what it leaves *)

Section Leftover.

Lemma total_saturday_insert wd i (t t' : Z * Z) :
  wd !! i = Some t →
  total_saturday_targets (<[i := t']> wd)
  = total_saturday_targets wd - t.1 + t'.1.
Proof. apply (map_fold_sum_insert fst). Qed.

Lemma total_sunday_insert wd i (t t' : Z * Z) :
  wd !! i = Some t →
  total_sunday_targets (<[i := t']> wd)
  = total_sunday_targets wd - t.2 + t'.2.
Proof. apply (map_fold_sum_insert snd). Qed.

(** A pass moves units from the remainders to the targets, one for one,
    and takes the Saturday remainder first. *)
Lemma for_pass_moves (l : list string) :
  ∀ wd rs ru wd' rs' ru',
    0 ≤ rs → 0 ≤ ru →
    for_pass l wd rs ru = Returned (wd', rs', ru') →
    total_saturday_targets wd' + rs' = total_saturday_targets wd + rs
    ∧ total_sunday_targets wd' + ru' = total_sunday_targets wd + ru
    ∧ rs' = Z.max 0 (rs - Z.of_nat (length l))
    ∧ ru' = Z.max 0 (ru - Z.max 0 (Z.of_nat (length l) - rs)).
Proof.
  induction l as [|i l IH]; intros wd rs ru wd' rs' ru' Hrs Hru Hf.
  - cbn [for_pass length] in *. injection Hf as <- <- <-. lia.
  - cbn [for_pass] in Hf. rewrite length_cons.
    destruct ((rs =? 0) && (ru =? 0)) eqn:Hz.
    { apply andb_true_iff in Hz as [->%Z.eqb_eq ->%Z.eqb_eq].
      injection Hf as <- <- <-. lia. }
    destruct (rs >? 0) eqn:Hrs0.
    + apply Z.gtb_lt in Hrs0. unfold getitem in Hf.
      destruct (wd !! i) as [t|] eqn:Ht; [|done]. cbn [bind] in Hf.
      apply IH in Hf as (H1 & H2 & H3 & H4); [|lia|lia].
      rewrite (total_saturday_insert wd i t) in H1 by done.
      rewrite (total_sunday_insert wd i t) in H2 by done.
      cbn [fst snd] in H1, H2. lia.
    + rewrite Z.gtb_ltb in Hrs0. apply Z.ltb_ge in Hrs0.
      assert (rs = 0) as -> by lia. simpl in Hz. apply Z.eqb_neq in Hz.
      destruct (ru >? 0) eqn:Hru0;
        [|rewrite Z.gtb_ltb in Hru0; apply Z.ltb_ge in Hru0; lia].
      unfold getitem in Hf.
      destruct (wd !! i) as [t|] eqn:Ht; [|done]. cbn [bind] in Hf.
      apply IH in Hf as (H1 & H2 & H3 & H4); [|lia|lia].
      rewrite (total_saturday_insert wd i t) in H1 by done.
      rewrite (total_sunday_insert wd i t) in H2 by done.
      cbn [fst snd] in H1, H2. lia.
Qed.

Lemma total_init_distribution (interns : list string) es eu :
  NoDup interns →
  total_saturday_targets (init_distribution interns es eu)
  = Z.of_nat (length interns) * es
  ∧ total_sunday_targets (init_distribution interns es eu)
    = Z.of_nat (length interns) * eu.
Proof.
  intros Hnd.
  assert (∀ k, is_Some (init_distribution interns es eu !! k) ↔ k ∈ interns)
    as Hkeys.
  { intros k. rewrite lookup_init_distribution.
    destruct (decide (k ∈ interns)); split; intros H; try done; eauto. }
  unfold total_saturday_targets, total_sunday_targets.
  rewrite (map_fold_sum_list fst interns _ Hnd Hkeys).
  rewrite (map_fold_sum_list snd interns _ Hnd Hkeys).
  assert (∀ i, i ∈ interns →
            init_distribution interns es eu !! i = Some (es, eu)) as Hv.
  { intros i Hi. rewrite lookup_init_distribution.
    by destruct (decide (i ∈ interns)). }
  rewrite (sum_Z_ext _ (λ _, es) interns).
  2:{ intros i Hi. by rewrite (Hv i Hi). }
  rewrite (sum_Z_ext
             (λ i, from_option snd 0 (init_distribution interns es eu !! i))
             (λ _, eu) interns).
  2:{ intros i Hi. by rewrite (Hv i Hi). }
  by rewrite !sum_Z_const.
Qed.

End Leftover.

Lemma distribute_weekends_leftover
    fuel dates M (interns shuffled_interns : list string) :
  NoDup interns → interns ≠ [] → shuffled_interns ≡ₚ interns →
  let n := Z.of_nat (length interns) in
  let rs := (count_weekday 5 dates * M) mod n in
  let ru := (count_weekday 6 dates * M) mod n in
  ∃ wd rs' ru',
    distribute_weekends (S fuel) dates M interns shuffled_interns
    = Returned (wd, rs', ru')
    ∧ total_saturday_targets wd + rs' = count_weekday 5 dates * M
    ∧ total_sunday_targets wd + ru' = count_weekday 6 dates * M
    ∧ rs' = (if (0 <? rs) && (0 <? ru) then 0 else rs)
    ∧ ru' = (if (0 <? rs) && (0 <? ru) then Z.max 0 (ru - (n - rs)) else ru).
Proof.
  intros Hnd Hne Hp n rs ru.
  assert (0 < n) as Hn.
  { subst n. destruct interns; [done|]. rewrite length_cons. lia. }
  assert (0 ≤ rs < n) as Hrs by (apply Z.mod_pos_bound; lia).
  assert (0 ≤ ru < n) as Hru by (apply Z.mod_pos_bound; lia).
  pose proof (Z.div_mod (count_weekday 5 dates * M) n ltac:(lia)) as D5.
  pose proof (Z.div_mod (count_weekday 6 dates * M) n ltac:(lia)) as D6.
  destruct (total_init_distribution interns
              (count_weekday 5 dates * M / n) (count_weekday 6 dates * M / n)
              Hnd) as [T5 T6].
  fold n in T5, T6. fold rs in D5. fold ru in D6.
  unfold distribute_weekends, floordiv, pymod. fold n.
  destruct (n =? 0) eqn:E; [apply Z.eqb_eq in E; lia|]. cbn [bind].
  fold rs ru.
  set (wd0 := init_distribution interns _ _) in *.
  cbn [while_remainders].
  replace ((rs >? 0) && (ru >? 0)) with ((0 <? rs) && (0 <? ru))
    by (by rewrite !Z.gtb_ltb).
  destruct ((0 <? rs) && (0 <? ru)) eqn:Hc.
  - apply andb_true_iff in Hc as [Hc1%Z.ltb_lt Hc2%Z.ltb_lt].
    destruct (for_pass_spec (count_weekday 5 dates * M / n)
                (count_weekday 6 dates * M / n) shuffled_interns wd0 rs ru)
      as (wd' & rs' & ru' & Hfp & _ & _ & _ & _);
      [by rewrite Hp|lia|lia| |apply near_expected_init|].
    { intros i Hi. subst wd0. rewrite lookup_init_distribution.
      rewrite decide_True; [done|]. by rewrite <- Hp. }
    rewrite Hfp. cbn [bind fst snd].
    destruct (for_pass_moves shuffled_interns wd0 rs ru wd' rs' ru')
      as (H1 & H2 & H3 & H4); [lia|lia|done|].
    rewrite Hp in H3, H4. fold n in H3, H4.
    assert (rs' = 0) as -> by lia.
    exists wd', 0, ru'. split; [by destruct fuel|]. split_and!; lia.
  - exists wd0, rs, ru. split; [done|]. split_and!; lia.
Qed.

(** X4: what the pre-distribution hands out and what it leaves over add
    up to the demand, for Saturdays and for Sundays.  For a non-empty list
    of distinct persons it returns; when one of the two remainders is zero
    at the start the loop is not entered and the other is left whole;
    otherwise the Saturday remainder is handed out in full and the Sunday
    remainder only as far as persons remain in the single pass. *)
Theorem weekend_targets_and_leftover
    fuel dates M (interns shuffled_interns : list string) :
  NoDup interns → interns ≠ [] → shuffled_interns ≡ₚ interns →
  let n := Z.of_nat (length interns) in
  let rs := (count_weekday 5 dates * M) mod n in
  let ru := (count_weekday 6 dates * M) mod n in
  ∃ wd rs' ru',
    distribute_weekends (S fuel) dates M interns shuffled_interns
    = Returned (wd, rs', ru')
    ∧ total_saturday_targets wd + rs' = count_weekday 5 dates * M
    ∧ total_sunday_targets wd + ru' = count_weekday 6 dates * M
    ∧ rs' = (if (0 <? rs) && (0 <? ru) then 0 else rs)
    ∧ ru' = (if (0 <? rs) && (0 <? ru) then Z.max 0 (ru - (n - rs)) else ru).
Proof. apply distribute_weekends_leftover. Qed.

Lemma weekend_targets_and_leftover_witness :
  let dates := dates Examples.trio_weekend in
  let n := Z.of_nat (length ["A"; "B"; "C"]%string) in
  let rs := (count_weekday 5 dates * 2) mod n in
  let ru := (count_weekday 6 dates * 2) mod n in
  ∃ wd rs' ru',
    distribute_weekends 1 dates 2 ["A"; "B"; "C"]%string
      ["C"; "A"; "B"]%string = Returned (wd, rs', ru')
    ∧ total_saturday_targets wd + rs' = count_weekday 5 dates * 2
    ∧ total_sunday_targets wd + ru' = count_weekday 6 dates * 2
    ∧ rs' = (if (0 <? rs) && (0 <? ru) then 0 else rs)
    ∧ ru' = (if (0 <? rs) && (0 <? ru) then Z.max 0 (ru - (n - rs)) else ru).
Proof.
  apply (weekend_targets_and_leftover 0 (dates Examples.trio_weekend) 2
           ["A"; "B"; "C"]%string ["C"; "A"; "B"]%string).
  - apply (bool_decide_unpack _). by vm_compute.
  - discriminate.
  - apply (bool_decide_unpack _). by vm_compute.
Defined.

(** ** Counting a solution of the programme *)

Section Counting.

(** What a solution says person by person and date by date. *)
Lemma solution_counts fuel self (interns shuffled : list string) p wd val :
  build_problem fuel self interns shuffled = Returned (p, wd) →
  satisfies val p →
  (∀ d, d ∈ dates self →
     min_interns_per_duty self
     ≤ Z.of_nat (length (staff_of val interns d)))
  ∧ (∀ i, i ∈ interns →
       units_per_intern self !! i
       = Some (sum_Z (get_units_for_day <$> shifts_of val (dates self) i)))
  ∧ (∀ i, i ∈ interns →
       wd !! i
       = Some (count_weekday 5 (shifts_of val (dates self) i),
               count_weekday 6 (shifts_of val (dates self) i))).
Proof.
  intros Hb [Hbin Hholds].
  destruct (build_problem_inv _ _ _ _ _ _ Hb)
    as (Hvars & Hwd & Hcov & Hquota & Hweekend & _).
  assert (∀ i d, i ∈ interns → d ∈ dates self → binary val (i, d)) as Hb01.
  { intros i d Hi Hd. rewrite Forall_forall in Hbin. apply Hbin.
    rewrite Hvars. by apply elem_of_intern_vars. }
  rewrite Forall_forall in Hholds.
  split_and!.
  - intros d Hd. specialize (Hholds _ (Hcov d Hd)).
    unfold holds, coverage_constraint in Hholds.
    cbn [csense terms rhs] in Hholds.
    rewrite (eval_ones val (λ i, (i, d)) interns) in Hholds
      by (intros i Hi; by apply Hb01).
    exact Hholds.
  - intros i Hi. destruct (Hquota i Hi) as (q & Hq & Hc).
    specialize (Hholds _ Hc). unfold holds in Hholds.
    cbn [csense terms rhs] in Hholds.
    rewrite (eval_weighted val get_units_for_day (λ d, (i, d)) (dates self))
      in Hholds by (intros d Hd; by apply Hb01).
    rewrite Hq. f_equal. by rewrite <- Hholds.
  - intros i Hi. destruct (Hweekend i Hi) as (t & Ht & Hc5 & Hc6).
    pose proof (Hholds _ Hc5) as H5. pose proof (Hholds _ Hc6) as H6.
    unfold holds in H5, H6. cbn [csense terms rhs] in H5, H6.
    rewrite (eval_ones val (λ d, (i, d))) in H5, H6
      by (intros d [_ Hd]%list_elem_of_filter; by apply Hb01).
    rewrite Ht. unfold count_weekday, shifts_of.
    rewrite (filter_swap (λ d, weekday d = 5)).
    rewrite (filter_swap (λ d, weekday d = 6)).
    rewrite H5, H6. by destruct t.
Qed.

(** The units all persons work together, counted date by date. *)
Lemma units_by_date (val : var → option Z) (interns : list string)
    (ds : list Z) (wt : Z → Z) :
  sum_Z ((λ i, sum_Z (wt <$> shifts_of val ds i)) <$> interns)
  = sum_Z ((λ d, wt d * Z.of_nat (length (staff_of val interns d))) <$> ds).
Proof.
  unfold shifts_of, staff_of.
  apply (double_count (λ i d, val (i, d) = Some 1)).
Qed.

End Counting.

(** X5: the pre-solve check never rejects an input that has a schedule.
    With at least one person required a day, distinct persons and a quota
    table that lists exactly them, if the programme [solve] builds has a
    solution then the sum of the quotas reaches the required total times
    the minimum staffing, and [verify_units] returns. *)
Theorem check_passes_when_solvable
    fuel self (interns shuffled_interns : list string) p wd val :
  1 ≤ min_interns_per_duty self →
  NoDup interns →
  (∀ k, is_Some (units_per_intern self !! k) ↔ k ∈ interns) →
  build_problem fuel self interns shuffled_interns = Returned (p, wd) →
  satisfies val p →
  calculate_total_required_units self * min_interns_per_duty self
  ≤ sum_values (units_per_intern self)
  ∧ verify_units self (calculate_total_required_units self) = Returned tt.
Proof.
  intros HM Hnd Hkeys Hb Hsat.
  destruct (solution_counts _ _ _ _ _ _ _ Hb Hsat) as (Hcov & Hquota & _).
  assert (calculate_total_required_units self * min_interns_per_duty self
          ≤ sum_values (units_per_intern self)) as Hle.
  { unfold sum_values.
    rewrite (map_fold_sum_list (λ x, x) interns _ Hnd Hkeys).
    rewrite (sum_Z_ext _
               (λ i, sum_Z (get_units_for_day <$> shifts_of val (dates self) i))
               interns).
    2:{ intros i Hi. cbv beta. by rewrite (Hquota i Hi). }
    rewrite units_by_date, total_required_units_sum.
    transitivity
      (sum_Z ((λ d, get_units_for_day d * min_interns_per_duty self)
                <$> dates self)).
    - clear. induction (dates self) as [|d l IH]; [done|].
      rewrite !fmap_cons, !sum_Z_cons. lia.
    - apply sum_Z_le. intros d Hd. specialize (Hcov d Hd).
      pose proof (get_units_pos d). nia. }
  split; [done|].
  unfold verify_units.
  pose proof (sum_units_length (dates self)) as Hlen.
  rewrite <- total_required_units_sum in Hlen.
  replace (sum_values (units_per_intern self)
           <? calculate_total_required_units self) with false
    by (symmetry; apply Z.ltb_ge; nia).
  replace (sum_values (units_per_intern self)
           <? calculate_total_required_units self
              * min_interns_per_duty self) with false
    by (symmetry; apply Z.ltb_ge; lia).
  done.
Qed.

Lemma check_passes_when_solvable_witness :
  let self := Examples.pair_weekdays in
  let val := Examples.alternate Examples.mon Examples.tue in
  ∃ p wd,
    build_problem 1 self ["A"; "B"]%string ["B"; "A"]%string
    = Returned (p, wd)
    ∧ satisfies val p
    ∧ calculate_total_required_units self * min_interns_per_duty self
      ≤ sum_values (units_per_intern self)
    ∧ verify_units self (calculate_total_required_units self) = Returned tt.
Proof.
  intros self val. eexists _, _. split; [vm_compute; reflexivity|].
  match goal with |- ?S ∧ _ => assert S as Hsat end.
  { split; cbn [variables constraints].
    - repeat apply Forall_cons_2; try apply Forall_nil; vm_compute; auto.
    - repeat apply Forall_cons_2; try apply Forall_nil; by vm_compute. }
  split; [exact Hsat|].
  eapply (check_passes_when_solvable 1 self ["A"; "B"]%string
            ["B"; "A"]%string _ _ val).
  - by vm_compute.
  - apply (bool_decide_unpack _). by vm_compute.
  - intros k. subst self. cbn [units_per_intern Examples.pair_weekdays __init__].
    destruct (decide (k = "A"%string)) as [->|HA];
      [split; [left|by vm_compute; eauto]|].
    destruct (decide (k = "B"%string)) as [->|HB];
      [split; [right; left|by vm_compute; eauto]|].
    rewrite lookup_insert_ne, lookup_singleton_ne by done.
    split; [by intros []|].
    intros [?|[?|?%elem_of_nil]%elem_of_cons]%elem_of_cons; done.
  - vm_compute. reflexivity.
  - exact Hsat.
Defined.

(** X6: a remainder left over makes the programme unsolvable.  For a
    non-empty list of distinct persons, when the pre-distribution ends with
    a Saturday or a Sunday remainder not handed out (one remainder zero and
    the other not, or two remainders that exceed the number of persons
    together), the weekend targets sum to less than the coverage
    constraints demand, and no assignment satisfies the programme that
    [solve] builds. *)
Theorem leftover_remainder_is_infeasible
    fuel self (interns shuffled_interns : list string) p wd :
  NoDup interns → interns ≠ [] → shuffled_interns ≡ₚ interns →
  let n := Z.of_nat (length interns) in
  let rs := (count_weekday 5 (dates self) * min_interns_per_duty self) mod n in
  let ru := (count_weekday 6 (dates self) * min_interns_per_duty self) mod n in
  (0 < rs ∧ ru = 0) ∨ (rs = 0 ∧ 0 < ru) ∨ (0 < rs ∧ 0 < ru ∧ n < rs + ru) →
  build_problem (S fuel) self interns shuffled_interns = Returned (p, wd) →
  infeasible p.
Proof.
  intros Hnd Hne Hp n rs ru Hleft Hb val Hsat.
  destruct (solution_counts _ _ _ _ _ _ _ Hb Hsat) as (Hcov & _ & Hweekend).
  destruct (build_problem_inv _ _ _ _ _ _ Hb) as (_ & Hwd & _).
  destruct (distribute_weekends_leftover fuel (dates self)
              (min_interns_per_duty self) interns shuffled_interns
              Hnd Hne Hp) as (wd' & rs' & ru' & Hd & H5 & H6 & Hrs' & Hru').
  fold n in Hrs', Hru'. fold rs in Hrs', Hru'. fold ru in Hrs', Hru'.
  unfold weekend_targets in Hwd. rewrite Hd in Hwd. injection Hwd as ->.
  assert (0 < n) as Hn.
  { subst n. destruct interns; [done|]. rewrite length_cons. lia. }
  assert (0 ≤ rs < n) as Hrs by (apply Z.mod_pos_bound; lia).
  assert (0 ≤ ru < n) as Hru by (apply Z.mod_pos_bound; lia).
  assert (∀ k, is_Some (wd !! k) ↔ k ∈ interns) as Hkeys.
  { destruct (distribute_weekends_returns fuel (dates self)
                (min_interns_per_duty self) interns shuffled_interns
                Hnd Hne Hp) as (wd2 & rs2 & ru2 & Hd2 & _ & Hk).
    rewrite Hd in Hd2. by injection Hd2 as <- _ _. }
  (* the targets, summed over the persons, count the staffing of the
     Saturdays and of the Sundays *)
  assert (∀ m, count_weekday m (dates self) * min_interns_per_duty self
               ≤ sum_Z ((λ i, count_weekday m (shifts_of val (dates self) i))
                          <$> interns)) as Hdemand.
  { intros m.
    rewrite (sum_Z_ext _
               (λ i, sum_Z ((λ _, 1)
                              <$> shifts_of val
                                    (filter (λ d, weekday d = m) (dates self))
                                    i)) interns).
    2:{ intros i Hi. cbv beta. rewrite sum_Z_const.
        unfold count_weekday, shifts_of.
        rewrite (filter_swap (λ d, weekday d = m)). lia. }
    rewrite units_by_date.
    transitivity
      (sum_Z ((λ _, min_interns_per_duty self)
                <$> filter (λ d, weekday d = m) (dates self))).
    - rewrite sum_Z_const. unfold count_weekday. lia.
    - apply sum_Z_le. intros d [_ Hd']%list_elem_of_filter.
      specialize (Hcov d Hd'). lia. }
  unfold total_saturday_targets in H5. unfold total_sunday_targets in H6.
  rewrite (map_fold_sum_list fst interns _ Hnd Hkeys) in H5.
  rewrite (map_fold_sum_list snd interns _ Hnd Hkeys) in H6.
  rewrite (sum_Z_ext _
             (λ i, count_weekday 5 (shifts_of val (dates self) i)) interns)
    in H5.
  2:{ intros i Hi. cbv beta. by rewrite (Hweekend i Hi). }
  rewrite (sum_Z_ext
             (λ i, from_option snd 0 (wd !! i))
             (λ i, count_weekday 6 (shifts_of val (dates self) i)) interns)
    in H6.
  2:{ intros i Hi. cbv beta. by rewrite (Hweekend i Hi). }
  pose proof (Hdemand 5) as D5. pose proof (Hdemand 6) as D6.
  destruct ((0 <? rs) && (0 <? ru)) eqn:Hc.
  - apply andb_true_iff in Hc as [Hc1%Z.ltb_lt Hc2%Z.ltb_lt]. lia.
  - apply andb_false_iff in Hc as [Hc%Z.ltb_ge|Hc%Z.ltb_ge]; lia.
Qed.

Lemma leftover_remainder_is_infeasible_witness :
  ∃ p wd,
    build_problem 1 Examples.pair_saturday ["A"; "B"]%string
      ["B"; "A"]%string = Returned (p, wd)
    ∧ infeasible p.
Proof.
  eexists _, _. split; [vm_compute; reflexivity|].
  eapply (leftover_remainder_is_infeasible 0 Examples.pair_saturday
            ["A"; "B"]%string ["B"; "A"]%string).
  - apply (bool_decide_unpack _). by vm_compute.
  - discriminate.
  - apply (bool_decide_unpack _). by vm_compute.
  - left. by vm_compute.
  - vm_compute. reflexivity.
Defined.

(** ** The outcomes of [solve] *)

Section Outcomes.

Variable solver : LpProblem → LpSolution.

Lemma mapM_raises {X Y : Type} (f : X → outcome Y) (l : list X) (e : exn) :
  (∀ x, x ∈ l → (∃ y, f x = Returned y) ∨ f x = Raised e) →
  (∃ x, x ∈ l ∧ f x = Raised e) →
  mapM f l = Raised e.
Proof.
  induction l as [|x l IH]; intros Hall (x0 & Hin & Hx0).
  - by apply not_elem_of_nil in Hin.
  - cbn [mapM]. destruct (Hall x) as [[y Hy]|Hx]; [left| |by rewrite Hx].
    rewrite Hy. cbn [bind]. rewrite IH; [done| |].
    + intros z Hz. apply Hall. by right.
    + apply elem_of_cons in Hin as [->|Hin]; [congruence|eauto].
Qed.

Lemma solve_checked_outcome fuel self randomize w :
  verify_units self (calculate_total_required_units self) = Returned tt →
  (solve solver fuel self randomize w).1
  = solve_model solver fuel self (interns_after self randomize w)
      (shuffle_interns self randomize w).1.
Proof.
  intros Hv. unfold solve. rewrite Hv. unfold solve_checked, interns_after.
  by destruct (shuffle_interns self randomize w).
Qed.

Lemma interns_after_perm self randomize w :
  interns_after self randomize w ≡ₚ read_list w (interns self).
Proof. apply shuffle_interns_read. Qed.

End Outcomes.

(** X7: with [randomize=False], [solve] leaves every list object as it
    was, the caller's list of names included, whatever its outcome. *)
Theorem solve_keeps_lists_without_randomize solver fuel self w :
  heap (solve solver fuel self false w).2 = heap w.
Proof.
  destruct (solve_world solver fuel self false w) as [-> | ->]; [done|].
  apply shuffle_interns_keep.
Qed.

Lemma solve_valid_input solver fuel self randomize w :
  constructed self →
  NoDup (read_list w (interns self)) →
  read_list w (interns self) ≠ [] →
  (∀ i, i ∈ read_list w (interns self) →
        is_Some (units_per_intern self !! i)) →
  verify_units self (calculate_total_required_units self) = Returned tt →
  ∃ s' sched metrics,
    solve solver (S fuel) self randomize w
    = (Returned s', (shuffle_interns self randomize w).2)
    ∧ schedule s' = Some sched
    ∧ intern_metrics s' = Some metrics
    ∧ (∀ d, is_Some (sched !! d) ↔ d ∈ dates self)
    ∧ (∀ d l, sched !! d = Some l →
         NoDup l ∧ ∀ i, i ∈ l → i ∈ read_list w (interns self))
    ∧ (∀ i, is_Some (metrics !! i) ↔ i ∈ read_list w (interns self)).
Proof.
  intros Hc Hnd Hne Hunits Hv.
  assert (NoDup (dates self)) as Hdates.
  { rewrite Hc. apply NoDup_generate_dates. }
  destruct (programme_of_returns fuel self randomize w Hnd Hne Hunits)
    as (p & wd & Hp).
  destruct (solve_returns solver (S fuel) self randomize w p wd Hv Hdates Hp)
    as (s' & sched & metrics & Hs & Hsched & Hmetrics & _ & He).
  exists s', sched, metrics. split_and!; try done.
  all: destruct (extract_solution_spec (varValue (solver p)) (dates self)
                   Hdates (interns_after self randomize w))
         as (sched' & metrics' & He' & Hd1 & Hd2 & Hm1 & Hm2);
       rewrite He in He'; injection He' as <- <-.
  - intros d. destruct (decide (d ∈ dates self)) as [Hd|Hd].
    + rewrite (Hd1 d Hd). split; eauto.
    + rewrite (Hd2 d Hd). split; [by intros []|done].
  - intros d l Hl. destruct (decide (d ∈ dates self)) as [Hd|Hd].
    + rewrite (Hd1 d Hd) in Hl. injection Hl as <-. split.
      * apply NoDup_filter. by rewrite interns_after_perm.
      * intros i [_ Hi]%list_elem_of_filter.
        by rewrite <- (interns_after_perm self randomize w).
    + by rewrite (Hd2 d Hd) in Hl.
  - intros i. rewrite <- (interns_after_perm self randomize w).
    destruct (decide (i ∈ interns_after self randomize w)) as [Hi|Hi].
    + destruct (Hm1 i Hi) as (m & Hm & _). rewrite Hm. split; eauto.
    + rewrite (Hm2 i Hi). split; [by intros []|done].
Qed.





(** X10: with an empty list of persons, once the check has passed (the
    quota table then holds quotas of persons that are not listed, or the
    horizon is empty), [solve] raises [ZeroDivisionError] at the first
    division by the number of persons. *)
Theorem solve_divides_by_zero_without_persons solver fuel self randomize w :
  verify_units self (calculate_total_required_units self) = Returned tt →
  read_list w (interns self) = [] →
  (solve solver fuel self randomize w).1 = Raised ZeroDivisionError.
Proof.
  intros Hv Hnil. rewrite (solve_checked_outcome solver) by done.
  assert (interns_after self randomize w = []) as ->.
  { apply Permutation_nil_r. by rewrite interns_after_perm, Hnil. }
  reflexivity.
Qed.

Lemma solve_divides_by_zero_without_persons_witness :
  (solve Examples.null_solver 1
     (__init__ Examples.tue Examples.mon Examples.roster ∅ 1 1) true
     (Examples.world_of [] [])).1 = Raised ZeroDivisionError.
Proof.
  apply (solve_divides_by_zero_without_persons Examples.null_solver 1
           (__init__ Examples.tue Examples.mon Examples.roster ∅ 1 1) true
           (Examples.world_of [] [])).
  - by vm_compute.
  - by vm_compute.
Defined.

(** ** The report *)

Section ReportRows.

Variable strftime : string → Z → string.
Variable sched : gmap Z (list string).

#[local] Abbreviation row_of := (Report.row_of strftime sched).

Lemma row_loop_spec (todo : list Z) :
  ∀ data mx,
    ∃ mx',
      Report.row_loop strftime sched todo data mx
      = (data ++ (row_of <$> todo), mx')
      ∧ (mx ≤ mx')%nat
      ∧ (∀ d, d ∈ todo →
           (length (Report.schedule_get sched d) ≤ mx')%nat)
      ∧ (mx' = mx
         ∨ ∃ d, d ∈ todo ∧ mx' = length (Report.schedule_get sched d)).
Proof.
  induction todo as [|d todo IH]; intros data mx.
  - exists mx. cbn [Report.row_loop fmap list_fmap]. rewrite app_nil_r.
    split_and!; [done|lia| |by left].
    intros d Hd. by apply not_elem_of_nil in Hd.
  - cbn [Report.row_loop].
    destruct (IH (data ++ [row_of d])
                (Nat.max mx (length (Report.schedule_get sched d))))
      as (mx' & Hr & Hle & Hall & Hatt).
    exists mx'. split_and!.
    + unfold Report.row_of in *. rewrite Hr, fmap_cons, <- app_assoc. done.
    + lia.
    + intros d' [->|Hd']%elem_of_cons; [lia|by apply Hall].
    + destruct Hatt as [->|(d' & Hd' & ->)].
      * destruct (Nat.max_spec mx (length (Report.schedule_get sched d)))
          as [[_ ->]|[_ ->]]; [right; exists d; split; [left|done]|by left].
      * right. exists d'. split; [by right|done].
Qed.

Lemma names_of_row_of d :
  Report.names_of (row_of d) = Report.schedule_get sched d.
Proof.
  unfold Report.names_of, Report.row_of.
  change (drop 2 ([?a; ?b] ++ ?l)) with l.
  induction (Report.schedule_get sched d) as [|x l IH]; [done|].
  rewrite fmap_cons. cbn [omap list_omap]. f_equal. exact IH.
Qed.

Lemma length_columns mx : length (Report.columns mx) = (2 + mx)%nat.
Proof.
  unfold Report.columns. rewrite length_app, length_fmap, length_seq. done.
Qed.

Lemma elem_of_collect_interns (data : list (list Report.cell)) (x : string) :
  x ∈ Report.collect_interns data
  ↔ ∃ row, row ∈ data ∧ x ∈ Report.names_of row.
Proof.
  unfold Report.collect_interns.
  assert (∀ acc : gset string,
            x ∈ foldl (λ all_interns row,
                         all_interns ∪ list_to_set (Report.names_of row))
                      acc data
            ↔ x ∈ acc ∨ ∃ row, row ∈ data ∧ x ∈ Report.names_of row) as H.
  { induction data as [|row data IH]; intros acc; cbn [foldl].
    - split; [by left|]. intros [?|(row & Hr & _)]; [done|].
      by apply not_elem_of_nil in Hr.
    - rewrite IH, elem_of_union, elem_of_list_to_set. split.
      + intros [[?|?]|(r & Hr & Hx)]; [by left| |].
        * right. exists row. split; [left|done].
        * right. exists r. split; [by right|done].
      + intros [?|(r & [->|Hr]%elem_of_cons & Hx)].
        * left. by left.
        * left. by right.
        * right. by exists r. }
  rewrite H. split; [intros [?|?]; [set_solver|done]|by right].
Qed.

End ReportRows.

Section Colors.

Lemma to_nat_mod (a b : nat) :
  Z.to_nat (Z.of_nat a mod Z.of_nat b) = (a mod b)%nat.
Proof. by rewrite <- Nat2Z.inj_mod, Nat2Z.id. Qed.

Lemma elem_of_enumerate {A : Type} (l : list A) (j : nat) (x : A) :
  (j, x) ∈ Report.enumerate l ↔ l !! j = Some x.
Proof.
  unfold Report.enumerate. rewrite list_elem_of_lookup. split.
  - intros (k & Hk). apply lookup_zip_with_Some in Hk
      as (j' & x' & [= <- <-] & Hj & Hx).
    apply lookup_seq in Hj as [-> _]. done.
  - intros Hj. exists j. apply lookup_zip_with_Some.
    exists j, x. split; [done|]. split; [|done].
    apply lookup_seq. split; [done|]. by apply lookup_lt_Some in Hj.
Qed.

Lemma snd_enumerate {A : Type} (l : list A) : (Report.enumerate l).*2 = l.
Proof.
  unfold Report.enumerate. apply snd_zip. by rewrite length_seq.
Qed.

(** Every name gets the colour at its number modulo the length of the
    palette. *)
Lemma assign_colors_spec (palette : list string) :
  palette ≠ [] →
  ∀ (numbered : list (nat * string)) (m : gmap string string),
    NoDup (numbered.*2) →
    ∃ m',
      Report.assign_colors palette numbered m = Returned m'
      ∧ (∀ j name, (j, name) ∈ numbered →
           m' !! name = palette !! (j mod length palette)%nat)
      ∧ (∀ name, name ∉ numbered.*2 → m' !! name = m !! name).
Proof.
  intros Hne. induction numbered as [|[j name] rest IH]; intros m Hnd.
  - exists m. cbn [Report.assign_colors]. split_and!; [done| |done].
    intros j name Hj. by apply not_elem_of_nil in Hj.
  - rewrite fmap_cons in Hnd. apply NoDup_cons in Hnd as [Hname Hnd].
    cbn [Report.assign_colors]. unfold pymod.
    assert (0 < length palette)%nat as Hlen
      by (destruct palette; [done|rewrite length_cons; lia]).
    destruct (Z.of_nat (length palette) =? 0) eqn:E;
      [apply Z.eqb_eq in E; lia|].
    cbn [bind]. rewrite to_nat_mod. unfold index.
    destruct (lookup_lt_is_Some_2 palette (j mod length palette)%nat)
      as [color Hcolor]; [apply Nat.mod_upper_bound; lia|].
    rewrite Hcolor. cbn [bind].
    destruct (IH (<[name := color]> m) Hnd) as (m' & Hr & Hin & Hout).
    exists m'. split; [done|]. split.
    + intros j' name' [[= -> ->]|Hj']%elem_of_cons.
      * rewrite (Hout name Hname). by rewrite lookup_insert_eq.
      * by apply Hin.
    + intros name' Hname'. rewrite fmap_cons in Hname'.
      apply not_elem_of_cons in Hname' as [Hne' Hname'].
      rewrite (Hout name' Hname'). by rewrite lookup_insert_ne.
Qed.

Lemma NoDup_color_choices : NoDup Report.color_choices.
Proof. apply (bool_decide_unpack _). by vm_compute. Qed.

End Colors.

Section ReportSheet.

Variable strftime : string → Z → string.
Variable set_order : gset string → list string.
Hypothesis set_order_lists : ∀ X, set_order X ≡ₚ elements X.

(** The row layout, unfolded. *)
Lemma create_calendar_rows self sched tape :
  schedule self = Some sched →
  let dates := generate_dates (start_date self) (end_date self) in
  let data := Report.row_of strftime sched <$> dates in
  let palette := (Random.shuffle Report.color_choices tape).1 in
  let order := set_order (Report.collect_interns data) in
  ∃ mx colors,
    Report.create_calendar strftime set_order self true tape
    = (Report.Saved (Returned (Report.Rows (Report.columns mx) data colors)),
       (Random.shuffle Report.color_choices tape).2)
    ∧ (∀ d, d ∈ dates → (length (Report.schedule_get sched d) ≤ mx)%nat)
    ∧ (mx = 0%nat
       ∨ ∃ d, d ∈ dates ∧ mx = length (Report.schedule_get sched d))
    ∧ palette ≡ₚ Report.color_choices
    ∧ NoDup order
    ∧ (∀ name, name ∈ order ↔ name ∈ Report.collect_interns data)
    ∧ length order = size (Report.collect_interns data)
    ∧ (∀ j name, order !! j = Some name →
         colors !! name = palette !! (j mod 15)%nat)
    ∧ (∀ name, name ∉ order → colors !! name = None).
Proof.
  intros Hs dates data palette order.
  unfold Report.create_calendar. rewrite Hs. cbn [negb]. fold dates.
  destruct (row_loop_spec strftime sched dates [] 0%nat)
    as (mx & Hr & _ & Hall & Hatt).
  rewrite Hr. cbn [app]. fold data.
  pose proof (shuffle_perm Report.color_choices tape) as Hperm.
  destruct (Random.shuffle Report.color_choices tape) as [pal tape'] eqn:Hsh.
  cbn [fst snd] in *. subst palette. fold order.
  assert (length pal = 15%nat) as Hlen by (by rewrite Hperm).
  assert (NoDup order) as Hnd.
  { subst order. rewrite set_order_lists. apply NoDup_elements. }
  destruct (assign_colors_spec pal) with (numbered := Report.enumerate order)
    (m := (∅ : gmap string string)) as (colors & Hc & Hin & Hout).
  { intros ->. done. }
  { by rewrite snd_enumerate. }
  rewrite Hc. cbn [bind]. exists mx, colors. split_and!; try done.
  - intros name. subst order. rewrite set_order_lists. apply elem_of_elements.
  - subst order. by rewrite set_order_lists.
  - intros j name Hj. rewrite (Hin j name), Hlen; [done|].
    by apply elem_of_enumerate.
  - intros name Hname. rewrite Hout; [done|]. by rewrite snd_enumerate.
Qed.

End ReportSheet.

(** X11: the row layout never passes pandas a row wider than the header.
    With a schedule, [create_calendar] builds one row a day of the range
    from [start_date] to [end_date]: the date, the units of the day and the
    persons on duty (none when the date is not a key of the schedule).
    The header has [2 + max_interns_per_day] labels, no row is longer, and
    on a non-empty range one row is exactly as long. *)
Theorem row_layout_fits_header
    (strftime : string → Z → string) (set_order : gset string → list string)
    self sched tape :
  (∀ X, set_order X ≡ₚ elements X) →
  schedule self = Some sched →
  let dates := generate_dates (start_date self) (end_date self) in
  ∃ columns calendar_data intern_colors tape',
    Report.create_calendar strftime set_order self true tape
    = (Report.Saved
         (Returned (Report.Rows columns calendar_data intern_colors)), tape')
    ∧ calendar_data = Report.row_of strftime sched <$> dates
    ∧ (∀ row, row ∈ calendar_data → (length row ≤ length columns)%nat)
    ∧ (dates ≠ [] →
       ∃ row, row ∈ calendar_data ∧ length row = length columns)
    ∧ (dates = [] → columns = ["Date"; "Units"]%string).
Proof.
  intros Hord Hs dates.
  destruct (create_calendar_rows strftime set_order Hord self sched tape Hs)
    as (mx & colors & Hc & Hall & Hatt & _).
  fold dates in Hc, Hall, Hatt.
  eexists _, _, colors, _. split; [exact Hc|]. split; [done|].
  assert (∀ d, length (Report.row_of strftime sched d)
               = (2 + length (Report.schedule_get sched d))%nat) as Hlen.
  { intros d. unfold Report.row_of. rewrite length_app, length_fmap. done. }
  split_and!.
  - intros row (d & -> & Hd)%list_elem_of_fmap.
    rewrite Hlen, length_columns. specialize (Hall d Hd). lia.
  - intros Hne. destruct Hatt as [->|(d & Hd & ->)].
    + destruct dates as [|d ds] eqn:E; [done|].
      exists (Report.row_of strftime sched d). split.
      * apply list_elem_of_fmap. exists d. split; [done|left].
      * rewrite Hlen, length_columns.
        assert (length (Report.schedule_get sched d) ≤ 0)%nat
          by (apply Hall; left). lia.
    + exists (Report.row_of strftime sched d). split.
      * apply list_elem_of_fmap. by exists d.
      * by rewrite Hlen, length_columns.
  - intros Hnil. destruct Hatt as [->|(d & Hd & _)]; [done|].
    rewrite Hnil in Hd. by apply not_elem_of_nil in Hd.
Qed.

(** X12: every name on the sheet gets a colour of the palette, and the
    names on the sheet are the persons on duty on some date of the range.
    With at most 15 different names no two names share a colour. *)
Theorem colours_are_distinct_up_to_15
    (strftime : string → Z → string) (set_order : gset string → list string)
    self sched tape :
  (∀ X, set_order X ≡ₚ elements X) →
  schedule self = Some sched →
  let dates := generate_dates (start_date self) (end_date self) in
  ∃ columns calendar_data intern_colors tape',
    Report.create_calendar strftime set_order self true tape
    = (Report.Saved
         (Returned (Report.Rows columns calendar_data intern_colors)), tape')
    ∧ (∀ name, name ∈ Report.collect_interns calendar_data
               ↔ ∃ d, d ∈ dates ∧ name ∈ Report.schedule_get sched d)
    ∧ (∀ name, name ∈ Report.collect_interns calendar_data
               ↔ is_Some (intern_colors !! name))
    ∧ (∀ name c, intern_colors !! name = Some c → c ∈ Report.color_choices)
    ∧ ((size (Report.collect_interns calendar_data) ≤ 15)%nat →
       ∀ a b c, intern_colors !! a = Some c → intern_colors !! b = Some c →
                a = b).
Proof.
  intros Hord Hs dates.
  destruct (create_calendar_rows strftime set_order Hord self sched tape Hs)
    as (mx & colors & Hc & _ & _ & Hperm & Hnd & Helem & Hlen & Hin & Hout).
  fold dates in Hc, Helem, Hlen, Hin, Hout, Hnd.
  set (data := Report.row_of strftime sched <$> dates) in *.
  set (order := set_order (Report.collect_interns data)) in *.
  set (palette := (Random.shuffle Report.color_choices tape).1) in *.
  assert (length palette = 15%nat) as Hpal by (by rewrite Hperm).
  assert (NoDup palette) as Hpnd
    by (rewrite Hperm; apply NoDup_color_choices).
  assert (∀ name, name ∈ order →
            ∃ j c, order !! j = Some name
                   ∧ palette !! (j mod 15)%nat = Some c
                   ∧ colors !! name = Some c) as Hcol.
  { intros name (j & Hj)%list_elem_of_lookup.
    destruct (lookup_lt_is_Some_2 palette (j mod 15)%nat) as [c Hcj].
    { rewrite Hpal. apply Nat.mod_upper_bound. lia. }
    exists j, c. split_and!; [done|done|]. by rewrite (Hin j name Hj). }
  eexists (Report.columns mx), data, colors, _. split; [exact Hc|].
  split_and!.
  - intros name. rewrite elem_of_collect_interns. split.
    + intros (row & (d & -> & Hd)%list_elem_of_fmap & Hname).
      rewrite names_of_row_of in Hname. eauto.
    + intros (d & Hd & Hname). exists (Report.row_of strftime sched d).
      split; [apply list_elem_of_fmap; eauto|by rewrite names_of_row_of].
  - intros name. rewrite <- Helem. split.
    + intros Hname. destruct (Hcol name Hname) as (j & c & _ & _ & ->). eauto.
    + intros [c Hname]. destruct (decide (name ∈ order)); [done|].
      by rewrite Hout in Hname.
  - intros name c Hname. destruct (decide (name ∈ order)) as [Ho|Ho];
      [|by rewrite Hout in Hname].
    destruct (Hcol name Ho) as (j & c' & _ & Hp & Hn).
    rewrite Hname in Hn. injection Hn as <-.
    rewrite <- Hperm. by apply list_elem_of_lookup_2 in Hp.
  - intros Hsize a b c Ha Hb. rewrite <- Hlen in Hsize.
    destruct (decide (a ∈ order)) as [Hao|Hao]; [|by rewrite Hout in Ha].
    destruct (decide (b ∈ order)) as [Hbo|Hbo]; [|by rewrite Hout in Hb].
    destruct (Hcol a Hao) as (ja & ca & Hja & Hpa & Hca).
    destruct (Hcol b Hbo) as (jb & cb & Hjb & Hpb & Hcb).
    rewrite Ha in Hca. rewrite Hb in Hcb. simplify_eq.
    pose proof (lookup_lt_Some _ _ _ Hja). pose proof (lookup_lt_Some _ _ _ Hjb).
    rewrite Nat.mod_small in Hpa, Hpb by lia.
    pose proof (NoDup_lookup _ _ _ _ Hpnd Hpa Hpb) as ->.
    congruence.
Qed.

(** X13: beyond 15 names the palette wraps around: with more than 15
    different names on the sheet, two different names get the same
    colour. *)
Theorem colours_repeat_beyond_15
    (strftime : string → Z → string) (set_order : gset string → list string)
    self sched tape :
  (∀ X, set_order X ≡ₚ elements X) →
  schedule self = Some sched →
  ∃ columns calendar_data intern_colors tape',
    Report.create_calendar strftime set_order self true tape
    = (Report.Saved
         (Returned (Report.Rows columns calendar_data intern_colors)), tape')
    ∧ ((15 < size (Report.collect_interns calendar_data))%nat →
       ∃ a b c, a ≠ b
                ∧ a ∈ Report.collect_interns calendar_data
                ∧ b ∈ Report.collect_interns calendar_data
                ∧ intern_colors !! a = Some c
                ∧ intern_colors !! b = Some c).
Proof.
  intros Hord Hs.
  destruct (create_calendar_rows strftime set_order Hord self sched tape Hs)
    as (mx & colors & Hc & _ & _ & Hperm & Hnd & Helem & Hlen & Hin & Hout).
  cbv zeta in *.
  set (data := Report.row_of strftime sched <$> _) in *.
  set (order := set_order (Report.collect_interns data)) in *.
  set (palette := (Random.shuffle Report.color_choices tape).1) in *.
  eexists (Report.columns mx), data, colors, _. split; [exact Hc|].
  intros Hsize. rewrite <- Hlen in Hsize.
  destruct (lookup_lt_is_Some_2 order 0) as [a Ha]; [lia|].
  destruct (lookup_lt_is_Some_2 order 15) as [b Hb]; [lia|].
  destruct (lookup_lt_is_Some_2 palette 0) as [c Hcol];
    [rewrite Hperm; simpl; lia|].
  exists a, b, c. split_and!.
  - intros ->. pose proof (NoDup_lookup _ _ _ _ Hnd Ha Hb). lia.
  - apply Helem. by apply list_elem_of_lookup_2 in Ha.
  - apply Helem. by apply list_elem_of_lookup_2 in Hb.
  - by rewrite (Hin 0%nat a Ha).
  - by rewrite (Hin 15%nat b Hb).
Qed.

(** ** The weekly grid *)

Section Grid.

Variable strftime : string → Z → string.
Variable sched : gmap Z (list string).

#[local] Abbreviation entry :=
  (λ d, Report.day_entry strftime d (Report.schedule_get sched d)).

#[local] Abbreviation week_rows := Report.week_rows.

Lemma week_loop_spec (dates : list Z) :
  NoDup dates →
  ∀ todo pre data cur,
    dates = pre ++ todo →
    (length cur < 7)%nat →
    (todo = [] → cur = []) →
    ∃ new,
      Report.week_loop strftime sched dates todo data cur = data ++ new
      ∧ concat new = cur ++ Report.entries strftime sched todo
      ∧ week_rows new.
Proof.
  intros Hnd. induction todo as [|date todo IH];
    intros pre data cur Hdates Hcur Hempty.
  - exists []. cbn [Report.week_loop]. rewrite app_nil_r, (Hempty eq_refl).
    split_and!; [done|done|]. intros r row Hr. by rewrite lookup_nil in Hr.
  - cbn [Report.week_loop].
    set (cur' := cur ++ [entry date]).
    assert (length cur' = S (length cur)) as Hlen
      by (subst cur'; rewrite length_app; simpl; lia).
    assert (last dates = Some date ↔ todo = []) as Hlast.
    { rewrite Hdates. split.
      - intros Hl. destruct todo as [|d2 todo2] using rev_ind; [done|].
        exfalso. clear IHtodo2.
        rewrite app_comm_cons, app_assoc, last_snoc in Hl.
        injection Hl as ->.
        rewrite Hdates in Hnd. apply NoDup_app in Hnd as (_ & _ & Hnd).
        apply NoDup_cons in Hnd as [Hnot _]. apply Hnot.
        apply elem_of_app. right. left.
      - intros ->. by rewrite last_snoc. }
    destruct ((length cur' =? 7)%nat || bool_decide (last dates = Some date))
      eqn:Hflush.
    + destruct (IH (pre ++ [date]) (data ++ [cur']) [])
        as (new & Hr & Hcat & Hrows);
        [by rewrite <- app_assoc|simpl; lia|done|].
      exists (cur' :: new). split_and!.
      * rewrite Hr, <- app_assoc. done.
      * cbn [concat]. rewrite Hcat. subst cur'. cbn [app].
        unfold Report.entries. rewrite fmap_cons, <- app_assoc. done.
      * intros [|r] row Hrow.
        -- injection Hrow as <-. split; [lia|]. intros Hmore.
           apply orb_true_iff in Hflush as [Hf|Hf].
           ++ by apply Nat.eqb_eq in Hf.
           ++ apply bool_decide_eq_true, Hlast in Hf. subst todo.
              cbn [Report.week_loop] in Hr.
              assert (new = []) as -> by (by apply app_inv_head in Hr
                                          || (symmetry; eapply app_inv_head;
                                              rewrite app_nil_r; exact Hr)).
              simpl in Hmore. lia.
        -- cbn [lookup list_lookup] in Hrow.
           destruct (Hrows r row Hrow) as [H1 H2]. split; [done|].
           intros Hmore. apply H2. simpl in Hmore. lia.
    + apply orb_false_iff in Hflush as [Hf1 Hf2].
      apply Nat.eqb_neq in Hf1. apply bool_decide_eq_false in Hf2.
      destruct (IH (pre ++ [date]) data cur')
        as (new & Hr & Hcat & Hrows);
        [by rewrite <- app_assoc|lia| |].
      { intros ->. exfalso. apply Hf2. by apply Hlast. }
      exists new. split_and!; [done| |done].
      rewrite Hcat. subst cur'. unfold Report.entries.
      rewrite fmap_cons, <- app_assoc. done.
Qed.

(** In rows that are full but for the last, the entry at row [r] and
    column [c] is entry [7 r + c] of the whole. *)
Lemma lookup_week_rows (rows : list (list string)) :
  week_rows rows →
  ∀ (r c : nat) row x,
    rows !! r = Some row → row !! c = Some x →
    concat rows !! (7 * r + c)%nat = Some x.
Proof.
  induction rows as [|row0 rows IH]; intros Hrows r c row x Hr Hc.
  - by rewrite lookup_nil in Hr.
  - destruct r as [|r].
    + injection Hr as ->. cbn [concat].
      rewrite lookup_app_l by (by apply lookup_lt_Some in Hc). done.
    + cbn [lookup list_lookup] in Hr.
      destruct (Hrows 0%nat row0 eq_refl) as [_ H7].
      assert (length row0 = 7%nat) as Hlen.
      { apply H7. apply lookup_lt_Some in Hr. simpl. lia. }
      cbn [concat]. rewrite lookup_app_r by lia.
      replace (7 * S r + c - length row0)%nat with (7 * r + c)%nat by lia.
      apply (IH) with (row := row); try done.
      intros r' row' Hr'. destruct (Hrows (S r') row' Hr') as [H1 H2].
      split; [done|]. intros Hmore. apply H2. simpl. lia.
Qed.

End Grid.



Lemma row_layout_fits_header_witness :
  let self := Examples.solved_pair in
  let dates := generate_dates (start_date self) (end_date self) in
  ∃ sched columns calendar_data intern_colors tape',
    schedule self = Some sched
    ∧ Report.create_calendar Examples.show_date elements self true [3; 1]%nat
      = (Report.Saved
           (Returned (Report.Rows columns calendar_data intern_colors)), tape')
    ∧ calendar_data = Report.row_of Examples.show_date sched <$> dates
    ∧ (∀ row, row ∈ calendar_data → (length row ≤ length columns)%nat)
    ∧ (dates ≠ [] →
       ∃ row, row ∈ calendar_data ∧ length row = length columns)
    ∧ (dates = [] → columns = ["Date"; "Units"]%string).
Proof.
  intros self dates. eexists.
  assert (schedule self = Some {[ Examples.mon := ["A"%string];
                                  Examples.tue := ["B"%string] ]}) as Hs
    by reflexivity.
  destruct (row_layout_fits_header Examples.show_date elements self _
              [3; 1]%nat (λ X, reflexivity _) Hs)
    as (columns & data & colors & tape' & H).
  exists columns, data, colors, tape'. split; [exact Hs|exact H].
Defined.

Lemma colours_are_distinct_up_to_15_witness :
  let self := Examples.solved_pair in
  let dates := generate_dates (start_date self) (end_date self) in
  ∃ sched columns calendar_data intern_colors tape',
    schedule self = Some sched
    ∧ Report.create_calendar Examples.show_date elements self true [3; 1]%nat
      = (Report.Saved
           (Returned (Report.Rows columns calendar_data intern_colors)), tape')
    ∧ (∀ name, name ∈ Report.collect_interns calendar_data
               ↔ ∃ d, d ∈ dates ∧ name ∈ Report.schedule_get sched d)
    ∧ (∀ name, name ∈ Report.collect_interns calendar_data
               ↔ is_Some (intern_colors !! name))
    ∧ (∀ name c, intern_colors !! name = Some c → c ∈ Report.color_choices)
    ∧ ((size (Report.collect_interns calendar_data) ≤ 15)%nat →
       ∀ a b c, intern_colors !! a = Some c → intern_colors !! b = Some c →
                a = b).
Proof.
  intros self dates. eexists.
  assert (schedule self = Some {[ Examples.mon := ["A"%string];
                                  Examples.tue := ["B"%string] ]}) as Hs
    by reflexivity.
  destruct (colours_are_distinct_up_to_15 Examples.show_date elements self _
              [3; 1]%nat (λ X, reflexivity _) Hs)
    as (columns & data & colors & tape' & H).
  exists columns, data, colors, tape'. split; [exact Hs|exact H].
Defined.

Lemma colours_repeat_beyond_15_witness :
  let self := Examples.solved_crowd in
  ∃ sched columns calendar_data intern_colors tape',
    schedule self = Some sched
    ∧ Report.create_calendar Examples.show_date elements self true []
      = (Report.Saved
           (Returned (Report.Rows columns calendar_data intern_colors)), tape')
    ∧ ((15 < size (Report.collect_interns calendar_data))%nat →
       ∃ a b c, a ≠ b
                ∧ a ∈ Report.collect_interns calendar_data
                ∧ b ∈ Report.collect_interns calendar_data
                ∧ intern_colors !! a = Some c
                ∧ intern_colors !! b = Some c).
Proof.
  intros self. eexists.
  assert (schedule self = Some {[ Examples.mon := Examples.crowd ]}) as Hs
    by reflexivity.
  destruct (colours_repeat_beyond_15 Examples.show_date elements self _
              [] (λ X, reflexivity _) Hs)
    as (columns & data & colors & tape' & H).
  exists columns, data, colors, tape'. split; [exact Hs|exact H].
Defined.

(** The crowd of the example does exceed the palette. *)
Lemma crowd_exceeds_palette :
  (15 < size (Report.collect_interns
                (Report.row_of Examples.show_date {[ Examples.mon := Examples.crowd ]}
                   <$> generate_dates Examples.mon Examples.mon)))%nat.
Proof. by vm_compute. Qed.

(** ** [solve], then [create_calendar] *)

Section SolveThenReport.

Variable solver : LpProblem → LpSolution.

(** A [solve] that returned went through the check and built the
    programme. *)
Lemma solve_returned_inv fuel self randomize w s' w' :
  solve solver fuel self randomize w = (Returned s', w') →
  verify_units self (calculate_total_required_units self) = Returned tt
  ∧ ∃ p wd, programme_of fuel self randomize w = Returned (p, wd).
Proof.
  unfold solve. destruct (verify_units _ _) as [[]| |] eqn:Hv; try done.
  intros Hs. split; [done|].
  unfold solve_checked, programme_of in *.
  destruct (shuffle_interns self randomize w) as [sh w1]. cbn [fst snd].
  injection Hs as Hs _. unfold solve_model in Hs.
  destruct (build_problem _ _ _ _) as [[p wd]| |]; try done. eauto.
Qed.

End SolveThenReport.



(** ** The web form *)

Section Strings.

Lemma split_nonempty sep s : App.split sep s ≠ [].
Proof.
  destruct s as [|c s]; cbn [App.split]; [done|].
  destruct (Ascii.eqb c sep); [done|]. by destruct (App.split sep s).
Qed.

Lemma concat_cons_char sep c piece pieces :
  String.concat sep (String c piece :: pieces)
  = String c (String.concat sep (piece :: pieces)).
Proof. by destruct pieces. Qed.

Lemma split_concat sep s :
  String.concat (String sep "") (App.split sep s) = s.
Proof.
  induction s as [|c s IH]; [done|]. cbn [App.split].
  pose proof (split_nonempty sep s) as Hne.
  destruct (Ascii.eqb c sep) eqn:E.
  - apply Ascii.eqb_eq in E as ->.
    destruct (App.split sep s) as [|p ps]; [done|].
    change (String.concat (String sep "") ("" :: p :: ps))
      with (String sep (String.concat (String sep "") (p :: ps))).
    by rewrite IH.
  - destruct (App.split sep s) as [|p ps]; [done|].
    by rewrite concat_cons_char, IH.
Qed.

Lemma length_split sep s :
  length (App.split sep s) = S (App.count_char sep s).
Proof.
  induction s as [|c s IH]; [done|]. cbn [App.split App.count_char].
  pose proof (split_nonempty sep s) as Hne.
  destruct (Ascii.eqb c sep).
  - rewrite length_cons, IH. done.
  - destruct (App.split sep s) as [|p ps]; [done|].
    rewrite length_cons in *. simpl. lia.
Qed.

Lemma split_pieces sep s piece :
  piece ∈ App.split sep s → App.count_char sep piece = 0%nat.
Proof.
  revert piece. induction s as [|c s IH]; intros piece; cbn [App.split].
  - by intros ->%list_elem_of_singleton.
  - pose proof (split_nonempty sep s) as Hne.
    destruct (Ascii.eqb c sep) eqn:E.
    + intros [->|Hp]%elem_of_cons; [done|by apply IH].
    + destruct (App.split sep s) as [|p ps]; [done|].
      intros [->|Hp]%elem_of_cons.
      * cbn [App.count_char]. rewrite E. rewrite IH; [done|left].
      * apply IH. by right.
Qed.

Lemma lstrip_spec s :
  ∃ pre, s = (pre +:+ App.lstrip s)%string
         ∧ App.all_space pre = true
         ∧ App.starts_with_space (App.lstrip s) = false.
Proof.
  induction s as [|c s (pre & Hs & Hpre & Hhead)]; [by exists ""%string|].
  cbn [App.lstrip]. destruct (App.is_space c) eqn:E.
  - exists (String c pre). split_and!; [|by cbn [App.all_space]; rewrite E|done].
    rewrite Hs at 1. reflexivity.
  - exists ""%string. split_and!; [done|done|].
    cbn [App.starts_with_space]. exact E.
Qed.

Lemma rstrip_spec t :
  ∃ post, t = (App.rstrip t +:+ post)%string
          ∧ App.all_space post = true
          ∧ App.ends_with_space (App.rstrip t) = false.
Proof.
  induction t as [|c t (post & Ht & Hpost & Hend)]; [by exists ""%string|].
  cbn [App.rstrip]. destruct (App.rstrip t) as [|d r] eqn:Hr.
  - change (t = post) in Ht. subst t. destruct (App.is_space c) eqn:E.
    + exists (String c post). split_and!; [done| |done].
      cbn [App.all_space]. by rewrite E.
    + exists post. split_and!; [done|done|].
      cbn [App.ends_with_space]. exact E.
  - exists post. split_and!; [|done|done].
    rewrite Ht at 1. reflexivity.
Qed.

Lemma rstrip_keeps_head t :
  App.starts_with_space t = false →
  App.starts_with_space (App.rstrip t) = false.
Proof.
  destruct t as [|c t]; [done|]. cbn [App.rstrip App.starts_with_space].
  intros E. destruct (App.rstrip t); [by rewrite E|done].
Qed.

Lemma lstrip_fixed t :
  App.starts_with_space t = false → App.lstrip t = t.
Proof. destruct t as [|c t]; [done|]. cbn. by intros ->. Qed.

Lemma rstrip_fixed t :
  App.ends_with_space t = false → App.rstrip t = t.
Proof.
  induction t as [|c t IH]; [done|]. cbn [App.ends_with_space App.rstrip].
  destruct t as [|d t].
  - cbn. by intros ->.
  - intros E. by rewrite (IH E).
Qed.

End Strings.

(** [split] loses nothing: joining the pieces gives the string back. *)
Lemma split_round_trip sep s :
  App.split sep s ≠ []
  ∧ length (App.split sep s) = S (App.count_char sep s)
  ∧ (∀ piece, piece ∈ App.split sep s → App.count_char sep piece = 0%nat)
  ∧ String.concat (String sep "") (App.split sep s) = s
  ∧ App.parse_interns s ≠ [].
Proof.
  split_and!.
  - apply split_nonempty.
  - apply length_split.
  - apply split_pieces.
  - apply split_concat.
  - unfold App.parse_interns. pose proof (split_nonempty App.comma s).
    by destruct (App.split App.comma s).
Qed.

(** [strip] removes white space at both ends and nothing else. *)
Lemma strip_spec s :
  (∃ pre post,
     s = (pre +:+ App.strip s +:+ post)%string
     ∧ App.all_space pre = true ∧ App.all_space post = true)
  ∧ App.starts_with_space (App.strip s) = false
  ∧ App.ends_with_space (App.strip s) = false
  ∧ App.strip (App.strip s) = App.strip s.
Proof.
  unfold App.strip.
  destruct (lstrip_spec s) as (pre & Hs & Hpre & Hhead).
  destruct (rstrip_spec (App.lstrip s)) as (post & Ht & Hpost & Hend).
  pose proof (rstrip_keeps_head _ Hhead) as Hhead'.
  split_and!; try done.
  - exists pre, post. split_and!; try done. by rewrite <- Ht.
  - by rewrite (lstrip_fixed _ Hhead'), (rstrip_fixed _ Hend).
Qed.

Lemma count_char_app c s1 s2 :
  App.count_char c (s1 +:+ s2)%string
  = (App.count_char c s1 + App.count_char c s2)%nat.
Proof.
  induction s1 as [|c1 s1 IH]; [done|].
  change ((String c1 s1 +:+ s2)%string) with (String c1 (s1 +:+ s2)%string).
  cbn [App.count_char]. rewrite IH. lia.
Qed.

(** X16: the names read off the form.  The field is cut at every comma
    and each piece is stripped: there is one name more than there are
    commas, so the list is never empty (an empty field gives the one name
    [""]); no name holds a comma, and no name starts or ends with white
    space. *)
Theorem parsed_names (intern_list : string) :
  length (App.parse_interns intern_list)
  = S (App.count_char App.comma intern_list)
  ∧ App.parse_interns intern_list ≠ []
  ∧ App.parse_interns "" = [""%string]
  ∧ ∀ name, name ∈ App.parse_interns intern_list →
      App.count_char App.comma name = 0%nat
      ∧ App.starts_with_space name = false
      ∧ App.ends_with_space name = false.
Proof.
  unfold App.parse_interns. split_and!.
  - by rewrite length_fmap, length_split.
  - pose proof (split_nonempty App.comma intern_list).
    by destruct (App.split App.comma intern_list).
  - reflexivity.
  - intros name (piece & -> & Hp)%list_elem_of_fmap.
    destruct (strip_spec piece) as ((pre & post & Hs & _) & Hh & He & _).
    split_and!; [|done|done].
    pose proof (split_pieces _ _ _ Hp) as Hc. rewrite Hs in Hc.
    rewrite !count_char_app in Hc. lia.
Qed.

Section Form.

Lemma lookup_units_dict (names : list string) (u : Z) (k : string) :
  App.units_dict names u !! k = if decide (k ∈ names) then Some u else None.
Proof.
  unfold App.units_dict. rewrite lookup_fold_insert. by rewrite lookup_empty.
Qed.

Lemma sum_values_units_dict (names : list string) (u : Z) :
  sum_values (App.units_dict names u)
  = u * Z.of_nat (size (list_to_set names : gset string)).
Proof.
  unfold sum_values.
  rewrite (map_fold_sum_list (λ x, x)
             (elements (list_to_set names : gset string))).
  - rewrite (sum_Z_ext _ (λ _, u)).
    + rewrite sum_Z_const. unfold size, set_size. simpl. lia.
    + intros k Hk. cbv beta. rewrite lookup_units_dict.
      apply elem_of_elements, elem_of_list_to_set in Hk.
      by rewrite decide_True by done.
  - apply NoDup_elements.
  - intros k. rewrite lookup_units_dict, elem_of_elements,
      elem_of_list_to_set.
    destruct (decide (k ∈ names)); split; intros H; try done; eauto.
Qed.

Lemma size_list_to_set_NoDup (names : list string) :
  NoDup names → size (list_to_set names : gset string) = length names.
Proof. intros Hnd. by apply size_list_to_set. Qed.

Lemma make_scheduler_facts (f : App.form) (w : world) :
  let names := App.parse_interns (App.f_intern_list f) in
  let scheduler := (App.make_scheduler f w).1 in
  let w1 := (App.make_scheduler f w).2 in
  read_list w1 (interns scheduler) = names
  ∧ names ≠ []
  ∧ constructed scheduler
  ∧ (∀ k, units_per_intern scheduler !! k
          = if decide (k ∈ names) then Some (App.f_units_per_intern f)
            else None)
  ∧ sum_values (units_per_intern scheduler)
    = App.f_units_per_intern f
      * Z.of_nat (size (list_to_set names : gset string))
  ∧ (∀ l, is_Some (heap w !! l) → heap w1 !! l = heap w !! l)
  ∧ rng w1 = rng w.
Proof.
  intros names scheduler w1. subst scheduler w1.
  unfold App.make_scheduler. cbn [fst snd]. fold names.
  split_and!.
  - unfold read_list. cbn [interns __init__ heap]. by rewrite lookup_insert_eq.
  - subst names. unfold App.parse_interns.
    pose proof (split_nonempty App.comma (App.f_intern_list f)).
    by destruct (App.split App.comma (App.f_intern_list f)).
  - reflexivity.
  - intros k. cbn [units_per_intern __init__]. apply lookup_units_dict.
  - cbn [units_per_intern __init__]. apply sum_values_units_dict.
  - intros l Hl. cbn [heap]. rewrite lookup_insert_ne; [done|].
    intros <-. apply elem_of_dom in Hl. by apply is_fresh in Hl.
  - reflexivity.
Qed.

End Form.

(** X17: the object the form handler builds.  The list of names is a new
    list object, not one of those that exist, and is never empty; the
    quota table has the one quota of the form for every name of the list
    and for nobody else; its sum is that quota times the number of
    different names, so a name typed twice counts once in the check. *)
Theorem form_scheduler (f : App.form) (w : world) :
  let names := App.parse_interns (App.f_intern_list f) in
  let scheduler := (App.make_scheduler f w).1 in
  let w1 := (App.make_scheduler f w).2 in
  read_list w1 (interns scheduler) = names
  ∧ names ≠ []
  ∧ constructed scheduler
  ∧ (∀ k, units_per_intern scheduler !! k
          = if decide (k ∈ names) then Some (App.f_units_per_intern f)
            else None)
  ∧ sum_values (units_per_intern scheduler)
    = App.f_units_per_intern f
      * Z.of_nat (size (list_to_set names : gset string))
  ∧ (∀ l, is_Some (heap w !! l) → heap w1 !! l = heap w !! l)
  ∧ rng w1 = rng w.
Proof. apply make_scheduler_facts. Qed.



(** ** What the constraints bound *)

Section Bounds.

Lemma filter_none {X : Type} (C : X → Prop) `{∀ x, Decision (C x)}
    (l : list X) :
  (∀ x, x ∈ l → ¬ C x) → filter C l = [].
Proof.
  induction l as [|x l IH]; intros Hno; [done|].
  rewrite filter_cons_False by (apply Hno; left).
  apply IH. intros y Hy. apply Hno. by right.
Qed.

(** Chosen positions that keep more than [ms] apart are few. *)
Lemma spaced_count {X : Type} (C : X → Prop) `{∀ x, Decision (C x)}
    (ms : nat) (n : nat) :
  ∀ ds : list X,
    (length ds ≤ n)%nat →
    (∀ (j k : nat) d1 d2,
       (1 ≤ k ≤ ms)%nat → ds !! j = Some d1 → ds !! (j + k)%nat = Some d2 →
       ¬ (C d1 ∧ C d2)) →
    (length (filter C ds) * (ms + 1) ≤ length ds + ms)%nat.
Proof.
  induction n as [|n IH]; intros ds Hlen Hsp.
  { destruct ds; [simpl; lia|simpl in Hlen; lia]. }
  destruct ds as [|d rest]; [simpl; lia|].
  rewrite length_cons in Hlen.
  assert (∀ (j k : nat) d1 d2,
            (1 ≤ k ≤ ms)%nat → rest !! j = Some d1 →
            rest !! (j + k)%nat = Some d2 → ¬ (C d1 ∧ C d2)) as Hrest.
  { intros j k d1 d2 Hk H1 H2. by apply (Hsp (S j) k d1 d2). }
  rewrite filter_cons. destruct (decide (C d)) as [Hd|Hd].
  - assert (filter C (take ms rest) = []) as Htake.
    { apply filter_none. intros x (j & Hj)%list_elem_of_lookup Hx.
      apply lookup_take_Some in Hj as [Hj Hlt].
      apply (Hsp 0%nat (S j) d x); [lia|done|done|done]. }
    rewrite <- (take_drop ms rest) at 1.
    rewrite filter_app, Htake. cbn [app].
    assert (length (filter C (drop ms rest)) * (ms + 1)
            ≤ length (drop ms rest) + ms)%nat as Hdrop.
    { apply IH.
      - rewrite length_drop. lia.
      - intros j k d1 d2 Hk H1 H2. rewrite lookup_drop in H1, H2.
        apply (Hrest (ms + j)%nat k d1 d2); [done|done|].
        by rewrite <- Nat.add_assoc. }
    rewrite length_drop in Hdrop. rewrite !length_cons.
    destruct (decide (ms ≤ length rest)%nat).
    + nia.
    + assert (drop ms rest = []) as Hnil by (apply drop_ge; lia).
      rewrite Hnil. simpl. lia.
  - specialize (IH rest ltac:(lia) Hrest). rewrite length_cons. lia.
Qed.

End Bounds.

(** X19: the spacing constraints bound the number of shifts.  In every
    solution of the programme, the shifts of a person number at most one
    for every [minimum_spacing + 1] days of the horizon, rounded up: the
    number of shifts times [minimum_spacing + 1] is at most the number of
    dates plus [minimum_spacing]. *)
Theorem spacing_bounds_shifts
    fuel self (interns shuffled_interns : list string) p wd val i :
  0 ≤ minimum_spacing self →
  build_problem fuel self interns shuffled_interns = Returned (p, wd) →
  satisfies val p →
  i ∈ interns →
  Z.of_nat (length (shifts_of val (dates self) i))
  * (minimum_spacing self + 1)
  ≤ Z.of_nat (length (dates self)) + minimum_spacing self.
Proof.
  intros Hms Hb [_ Hholds] Hi.
  destruct (build_problem_inv _ _ _ _ _ _ Hb) as (_ & _ & _ & _ & _ & Hsp).
  rewrite Forall_forall in Hholds.
  pose proof (spaced_count (λ d, val (i, d) = Some 1)
                (Z.to_nat (minimum_spacing self)) (length (dates self))
                (dates self) (le_n _)) as Hcount.
  unfold shifts_of.
  assert (length (filter (λ d, val (i, d) = Some 1%Z) (dates self))
          * (Z.to_nat (minimum_spacing self) + 1)
          ≤ length (dates self) + Z.to_nat (minimum_spacing self))%nat as H.
  { apply Hcount. intros j k d1 d2 Hk H1 H2 [Hd1 Hd2].
    pose proof (elem_of_spacing_constraints (dates self)
                  (minimum_spacing self) i j k d1 d2
                  ltac:(lia) ltac:(lia) H1 H2) as Hc.
    specialize (Hholds _ (Hsp i Hi _ Hc)).
    unfold holds in Hholds.
    cbn [csense terms rhs eval foldr fst snd] in Hholds.
    unfold value in Hholds. rewrite Hd1, Hd2 in Hholds. simpl in Hholds.
    lia. }
  nia.
Qed.

Lemma spacing_bounds_shifts_witness :
  let self := Examples.pair_weekdays in
  let val := Examples.alternate Examples.mon Examples.tue in
  ∃ p wd,
    build_problem 1 self ["A"; "B"]%string ["B"; "A"]%string
    = Returned (p, wd)
    ∧ satisfies val p
    ∧ Z.of_nat (length (shifts_of val (dates self) "A"%string))
      * (minimum_spacing self + 1)
      ≤ Z.of_nat (length (dates self)) + minimum_spacing self.
Proof.
  intros self val. eexists _, _. split; [vm_compute; reflexivity|].
  match goal with |- ?S ∧ _ => assert S as Hsat end.
  { split; cbn [variables constraints].
    - repeat apply Forall_cons_2; try apply Forall_nil; vm_compute; auto.
    - repeat apply Forall_cons_2; try apply Forall_nil; by vm_compute. }
  split; [exact Hsat|].
  eapply (spacing_bounds_shifts 1 self ["A"; "B"]%string
            ["B"; "A"]%string _ _ val "A"%string).
  - by vm_compute.
  - vm_compute. reflexivity.
  - exact Hsat.
  - apply (bool_decide_unpack _). by vm_compute.
Defined.

(** X20: the check does not look at the number of persons.  When more
    persons are required a day than there are on the list, and the horizon
    is not empty, the programme [solve] builds has no solution, whatever
    the quotas. *)
Theorem staffing_above_headcount_is_infeasible
    fuel self (interns shuffled_interns : list string) p wd :
  dates self ≠ [] →
  Z.of_nat (length interns) < min_interns_per_duty self →
  build_problem fuel self interns shuffled_interns = Returned (p, wd) →
  infeasible p.
Proof.
  intros Hne HM Hb val Hsat.
  destruct (solution_counts _ _ _ _ _ _ _ Hb Hsat) as (Hcov & _).
  destruct (dates self) as [|d ds] eqn:E; [done|].
  specialize (Hcov d ltac:(left)).
  pose proof (length_filter (λ i, val (i, d) = Some 1) interns) as Hlen.
  unfold staff_of in Hcov. lia.
Qed.

Lemma staffing_above_headcount_is_infeasible_witness :
  ∃ p wd,
    build_problem 1 Examples.trio_weekend ["A"]%string ["A"]%string
    = Returned (p, wd)
    ∧ infeasible p.
Proof.
  eexists _, _. split; [vm_compute; reflexivity|].
  eapply (staffing_above_headcount_is_infeasible 1 Examples.trio_weekend
            ["A"]%string ["A"]%string).
  - by vm_compute.
  - by vm_compute.
  - vm_compute. reflexivity.
Defined.

(** X21: the metrics cross-check the constraints.  When the values the
    solver left satisfy the programme, [solve] returns metrics in which
    every person's [total_units_used] is the quota, and the [saturdays]
    and [sundays] counts are the pre-distributed weekend targets. *)
Theorem metrics_match_constraints
    solver fuel self randomize w p wd :
  verify_units self (calculate_total_required_units self) = Returned tt →
  constructed self →
  programme_of fuel self randomize w = Returned (p, wd) →
  satisfies (varValue (solver p)) p →
  ∃ s' metrics,
    solve solver fuel self randomize w
    = (Returned s', (shuffle_interns self randomize w).2)
    ∧ intern_metrics s' = Some metrics
    ∧ ∀ i, i ∈ interns_after self randomize w →
        ∃ m, metrics !! i = Some m
             ∧ units_per_intern self !! i = Some (total_units_used m)
             ∧ wd !! i = Some (saturdays m, sundays m).
Proof.
  intros Hv Hc Hp Hsat.
  assert (NoDup (dates self)) as Hdates.
  { rewrite Hc. apply NoDup_generate_dates. }
  destruct (solve_returns solver fuel self randomize w p wd Hv Hdates Hp)
    as (s' & sched & metrics & Hs & _ & Hmetrics & _ & He).
  exists s', metrics. split; [done|]. split; [done|].
  destruct (extract_solution_spec (varValue (solver p)) (dates self) Hdates
              (interns_after self randomize w))
    as (sched' & metrics' & He' & _ & _ & Hm & _).
  rewrite He in He'. injection He' as <- <-.
  destruct (solution_counts _ _ _ _ _ _ _ Hp Hsat) as (_ & Hquota & Hweekend).
  intros i Hi.
  destruct (Hm i Hi) as (m & Hmi & Hu & _ & _ & H5 & H6 & _).
  exists m. split; [done|].
  rewrite (Hquota i Hi), (Hweekend i Hi), Hu, H5, H6. done.
Qed.

Lemma metrics_match_constraints_witness :
  let w := Examples.world_of ["A"; "B"]%string [1; 0]%nat in
  let solver := Examples.alternating_solver Examples.mon Examples.tue in
  let self := Examples.pair_weekdays in
  ∃ p wd,
    programme_of 1 self true w = Returned (p, wd)
    ∧ satisfies (varValue (solver p)) p
    ∧ ∃ s' metrics,
        solve solver 1 self true w
        = (Returned s', (shuffle_interns self true w).2)
        ∧ intern_metrics s' = Some metrics
        ∧ ∀ i, i ∈ interns_after self true w →
            ∃ m, metrics !! i = Some m
                 ∧ units_per_intern self !! i = Some (total_units_used m)
                 ∧ wd !! i = Some (saturdays m, sundays m).
Proof.
  intros w solver self. eexists _, _. split; [vm_compute; reflexivity|].
  match goal with |- ?S ∧ _ => assert S as Hsat end.
  { split; cbn [variables constraints].
    - repeat apply Forall_cons_2; try apply Forall_nil; vm_compute; auto.
    - repeat apply Forall_cons_2; try apply Forall_nil; by vm_compute. }
  split; [exact Hsat|].
  eapply (metrics_match_constraints solver 1 self true w).
  - vm_compute. reflexivity.
  - reflexivity.
  - vm_compute. reflexivity.
  - exact Hsat.
Defined.
